(** * Portfolio accounting engine (main.py): a shallow embedding

    The development follows the layout of [main.py]: the trade ledger
    ([TradeHistory]), positions ([Asset]) and portfolios ([Inventory]) living
    in a store of mutable objects, the snapshot archive ([InventorySnapshot]),
    the calendar lookup ([get_closest_available_date]), the replay engine
    ([process_trade], [daily_update]) and the metrics
    ([get_profits_cost], [get_beta], [get_sharpe_ratio]).

    Number model.  Share quantities are Python [int]s and are modelled by [Z].
    Prices, costs, profits and returns are Python floats.  In the engine,
    the percentages and [get_beta] they are idealised as real numbers ([R]),
    so rounding, overflow to infinity and nan are not represented there, and
    the theorems name the expressions that the code evaluates; an operation
    that Python or numpy leaves without a number (a raised exception, or
    numpy's nan/inf for a zero denominator) is modelled by [None].  Where
    rounding itself decides the behaviour (the order of a running sum, the
    test [volatility == 0]), the functions are taken over binary64 floats in
    the module [F64]. *)

From Stdlib Require Import PrimFloat.
From Stdlib Require Uint63.
From Stdlib Require Import Reals Lra ZArith Lia List String.
From stdpp Require Import gmap strings list fin_maps.

Local Open Scope Z_scope.

(** ** Python numbers *)

#[global] Instance R_eq_dec : EqDecision R := Req_dec_T.

(** [a / b] on floats: a zero divisor gives no number. *)
Definition pydiv (a b : R) : option R :=
  if decide (b = 0%R) then None else Some (a / b)%R.

(** Constants of the module. *)
Definition EPS : R := (1 / 1000000)%R.
Definition BUY : string := "BUY".
Definition SELL : string := "SELL".
Definition RISK_FREE_RATE : R := (2 / 100)%R.

(** ** Nested dictionaries [{year: {month: {day: value}}}] *)

Abbreviation dict3 V := (gmap Z (gmap Z (gmap Z V))).

(** [d[year][month][day]], with [None] for a [KeyError]. *)
Definition lookup3 {V} (year month day : Z) (d : dict3 V) : option V :=
  dy ← d !! year; dm ← dy !! month; dm !! day.

(** The dictionary of a month, empty when the year or the month is absent. *)
Definition month_of {V} (year month : Z) (d : dict3 V) : gmap Z V :=
  default ∅ (dy ← d !! year; dy !! month).

(** [d.setdefault(k, v)] as a statement: the dictionary afterwards. *)
Definition setdefault `{Countable K} {V} (k : K) (v : V) (d : gmap K V) : gmap K V :=
  match d !! k with
  | Some _ => d
  | None => <[k := v]> d
  end.

(** [d.setdefault(k, v).op(...)]: [setdefault] hands back the dictionary
    stored under [k] (the fresh [v] when [k] was absent) and [op] mutates
    that dictionary in place. *)
Definition setdefault_then `{Countable K} {V} (k : K) (v : V) (op : V → V)
    (d : gmap K V) : gmap K V :=
  <[k := op (default v (d !! k))]> d.

(** ** Trade events and the trade ledger *)

Module Buy.
Record t := mk { ticker : string; price : R; qty : Z }.
Definition cost (self : t) : R := (price self * IZR (qty self))%R.
End Buy.

Module Sell.
Record t := mk { ticker : string; price : R; qty : Z; profit : R; cost : R }.
End Sell.

Record TradeHistory := mkTradeHistory {
  buy_history : dict3 (gmap string Buy.t);
  sell_history : dict3 (gmap string Sell.t)
}.

Definition TradeHistory_init : TradeHistory :=
  {| buy_history := ∅; sell_history := ∅ |}.

Definition add_buy (year month day : Z) (buy : Buy.t) (self : TradeHistory) : TradeHistory :=
  {| buy_history :=
       setdefault_then year ∅ (setdefault_then month ∅ (setdefault_then day ∅
         (setdefault (Buy.ticker buy) buy))) (buy_history self);
     sell_history := sell_history self |}.

Definition add_sell (year month day : Z) (sell : Sell.t) (self : TradeHistory) : TradeHistory :=
  {| buy_history := buy_history self;
     sell_history :=
       setdefault_then year ∅ (setdefault_then month ∅ (setdefault_then day ∅
         (setdefault (Sell.ticker sell) sell))) (sell_history self) |}.

Definition get_buy (self : TradeHistory) (year month day : Z) (ticker : string) : option Buy.t :=
  dt ← lookup3 year month day (buy_history self); dt !! ticker.

Definition get_sell (self : TradeHistory) (year month day : Z) (ticker : string) : option Sell.t :=
  dt ← lookup3 year month day (sell_history self); dt !! ticker.

(** The body of the inner loop of [sum_profits_costs]; [acc] holds the local
    variables [profits] and [costs]. *)
Definition sum_ticker (self : TradeHistory) (date : Z * Z * Z) (acc : R * R)
    (ticker : string) : R * R :=
  let '(year, month, day) := date in
  match get_sell self year month day ticker with
  | Some sell => ((acc.1 + Sell.profit sell)%R, (acc.2 + Sell.cost sell)%R)
  | None => acc
  end.

(** The two nested loops, started with the accumulators at [acc]. *)
Definition sum_loop (self : TradeHistory) (dates : list (Z * Z * Z))
    (tickers : list string) (acc : R * R) : R * R :=
  fold_left (λ acc date, fold_left (sum_ticker self date) tickers acc) dates acc.

Definition sum_profits_costs (self : TradeHistory) (dates : list (Z * Z * Z))
    (tickers : list string) : R * R :=
  sum_loop self dates tickers (0%R, 0%R).

(** A call on the ledger, and a sequence of calls made on a fresh ledger. *)
Inductive ledger_call :=
  | CallAddBuy (year month day : Z) (buy : Buy.t)
  | CallAddSell (year month day : Z) (sell : Sell.t).

Definition do_call (self : TradeHistory) (c : ledger_call) : TradeHistory :=
  match c with
  | CallAddBuy y m d b => add_buy y m d b self
  | CallAddSell y m d s => add_sell y m d s self
  end.

Definition do_calls (calls : list ledger_call) (self : TradeHistory) : TradeHistory :=
  fold_left do_call calls self.

(** The first [Buy] (resp. [Sell]) that a sequence of calls inserts under the
    key [(year, month, day, ticker)]. *)
Fixpoint first_buy (calls : list ledger_call) (key : Z * Z * Z * string) : option Buy.t :=
  match calls with
  | [] => None
  | CallAddBuy y m d b :: rest =>
      if decide ((y, m, d, Buy.ticker b) = key) then Some b else first_buy rest key
  | CallAddSell _ _ _ _ :: rest => first_buy rest key
  end.

Fixpoint first_sell (calls : list ledger_call) (key : Z * Z * Z * string) : option Sell.t :=
  match calls with
  | [] => None
  | CallAddSell y m d s :: rest =>
      if decide ((y, m, d, Sell.ticker s) = key) then Some s else first_sell rest key
  | CallAddBuy _ _ _ _ :: rest => first_sell rest key
  end.

(** ** Positions *)

Module Asset.
Record t := mk { qty : Z; cost : R; value : R; cash : R }.

(** [Asset.__init__] *)
Definition init : t := mk 0 0 0 0.

(** [self.cost / self.qty if self.qty != 0 else 0] *)
Definition avg_price (self : t) : option R :=
  if decide (qty self ≠ 0) then pydiv (cost self) (IZR (qty self)) else Some 0%R.

Definition profit (self : t) : R := (value self - cost self)%R.
End Asset.

(** ** The store of mutable objects and the module-level variables

    [Asset] and [Inventory] objects are mutated in place and reached through
    references, so they live in a store indexed by locations.  An [Inventory]
    object is represented by its [assets] dictionary, which maps a ticker to
    the location of an [Asset] object. *)

Abbreviation loc := positive.

Record Globals := mkGlobals {
  all_tickers : list string;
  price_daily : dict3 (gmap string R);
  asset_objs : gmap loc Asset.t;
  inventory_objs : gmap loc (gmap string loc);
  inventory_curr : loc;
  inventory_snapshot : dict3 loc;
  trades : TradeHistory
}.

Definition set_asset_objs (h : gmap loc Asset.t) (g : Globals) : Globals :=
  mkGlobals (all_tickers g) (price_daily g) h (inventory_objs g)
    (inventory_curr g) (inventory_snapshot g) (trades g).

Definition set_inventory_objs (h : gmap loc (gmap string loc)) (g : Globals) : Globals :=
  mkGlobals (all_tickers g) (price_daily g) (asset_objs g) h
    (inventory_curr g) (inventory_snapshot g) (trades g).

Definition set_inventory_curr (l : loc) (g : Globals) : Globals :=
  mkGlobals (all_tickers g) (price_daily g) (asset_objs g) (inventory_objs g)
    l (inventory_snapshot g) (trades g).

Definition set_inventory_snapshot (s : dict3 loc) (g : Globals) : Globals :=
  mkGlobals (all_tickers g) (price_daily g) (asset_objs g) (inventory_objs g)
    (inventory_curr g) s (trades g).

Definition set_trades (t : TradeHistory) (g : Globals) : Globals :=
  mkGlobals (all_tickers g) (price_daily g) (asset_objs g) (inventory_objs g)
    (inventory_curr g) (inventory_snapshot g) t.

(** The [Asset] object that the inventory at [self] holds for [ticker]:
    [self.assets[ticker]] dereferenced. *)
Definition asset_of (g : Globals) (self : loc) (ticker : string) : option Asset.t :=
  assets ← inventory_objs g !! self; l ← assets !! ticker; asset_objs g !! l.

(** ** Inventory *)

(** One round of the comprehension [{ticker: Asset() for ticker in all_tickers}]:
    a new [Asset] object is created and bound to [ticker]. *)
Definition new_asset_for (acc : gmap string loc * gmap loc Asset.t) (ticker : string)
    : gmap string loc * gmap loc Asset.t :=
  let l := fresh (dom acc.2) in (<[ticker := l]> acc.1, <[l := Asset.init]> acc.2).

(** [Inventory(tickers_interested)]: returns the new object and the state
    in which it has been allocated. *)
Definition Inventory_init {A} (tickers_interested : A) (g : Globals) : loc * Globals :=
  let '(assets, h) := fold_left new_asset_for (all_tickers g) (∅, asset_objs g) in
  let self := fresh (dom (inventory_objs g)) in
  (self, set_inventory_objs (<[self := assets]> (inventory_objs g)) (set_asset_objs h g)).

(** [sum([self.assets[ticker].field for ticker in tickers])] *)
Definition Inventory_sum (field : Asset.t → R) (g : Globals) (self : loc)
    (tickers : list string) : option R :=
  xs ← mapM (λ ticker, field <$> asset_of g self ticker) tickers;
  Some (fold_left Rplus xs 0%R).

Definition Inventory_value := Inventory_sum Asset.value.
Definition Inventory_profits := Inventory_sum Asset.profit.
Definition Inventory_costs := Inventory_sum Asset.cost.
Definition Inventory_cash := Inventory_sum Asset.cash.

(** ** copy.deepcopy of an inventory

    Every [Asset] object reached from the dictionary is copied into a new
    object; the memo table makes an object that is reached twice be copied
    once, as [copy.deepcopy] does. *)
Definition deepcopy_item (acc : option (gmap string loc * gmap loc loc * gmap loc Asset.t))
    (item : string * loc) : option (gmap string loc * gmap loc loc * gmap loc Asset.t) :=
  '(assets, memo, h) ← acc;
  match memo !! item.2 with
  | Some l' => Some (<[item.1 := l']> assets, memo, h)
  | None =>
      a ← h !! item.2;
      let l' := fresh (dom h) in
      Some (<[item.1 := l']> assets, <[item.2 := l']> memo, <[l' := a]> h)
  end.

Definition deepcopy (inventory : loc) (g : Globals) : option (loc * Globals) :=
  assets ← inventory_objs g !! inventory;
  '(assets', _, h) ← fold_left deepcopy_item (map_to_list assets) (Some (∅, ∅, asset_objs g));
  let l := fresh (dom (inventory_objs g)) in
  Some (l, set_inventory_objs (<[l := assets']> (inventory_objs g)) (set_asset_objs h g)).

(** ** Calendar lookup *)

(** [max(key for key in map(int, d.keys()) if key <= bound)]; [None] is the
    [ValueError] that [max] raises on an empty sequence. *)
Definition max_key_le {V} (d : gmap Z V) (bound : Z) : option Z :=
  foldr (λ key acc, Some (from_option (Z.max key) key acc)) None
    (filter (λ key, key ≤ bound) (map_to_list d).*1).

(** [calendar.isleap] and [calendar.monthrange(year, month)[1]], the number
    of days of the month; a month outside 1..12 raises. *)
Definition isleap (year : Z) : bool :=
  bool_decide (year `mod` 4 = 0 ∧ (year `mod` 100 ≠ 0 ∨ year `mod` 400 = 0)).

Definition monthrange_days (year month : Z) : option Z :=
  if bool_decide (1 ≤ month ≤ 12) then
    Some (if bool_decide (month = 2) then (if isleap year then 29 else 28)
          else if bool_decide (month ∈ [4; 6; 9; 11]) then 30 else 31)
  else None.

(** An exception raised inside a [try] block is caught by [except Exception];
    the handler's own exceptions propagate. *)
Definition try_except {A} (body handler : option A) : option A :=
  match body with
  | Some x => Some x
  | None => handler
  end.

Definition get_closest_available_date {V} (year month day : Z) (d : dict3 V)
    : option (Z * Z * Z) :=
  year ← max_key_le d year;
  '(year, month) ← try_except
    (dy ← d !! year; month ← max_key_le dy month; Some (year, month))
    (year ← max_key_le d year;
     let year := year - 1 in
     dy ← d !! year; month ← max_key_le dy 12; Some (year, month));
  '(month, day) ← try_except
    (dy ← d !! year; dm ← dy !! month; day ← max_key_le dm day; Some (month, day))
    (dy ← d !! year; month ← max_key_le dy month;
     let month := month - 1 in
     dm ← dy !! month;
     last ← monthrange_days year month;
     day ← max_key_le dm last;
     Some (month, day));
  Some (year, month, day).

(** Dates are compared as [(year, month, day)] tuples. *)
Definition date_le (a b : Z * Z * Z) : Prop :=
  let '(y1, m1, d1) := a in
  let '(y2, m2, d2) := b in
  y1 < y2 ∨ (y1 = y2 ∧ (m1 < m2 ∨ (m1 = m2 ∧ d1 ≤ d2))).

Definition date_lt (a b : Z * Z * Z) : Prop := date_le a b ∧ a ≠ b.

(** A date is indexed when [d[year][month][day]] exists. *)
Definition indexed {V} (d : dict3 V) (date : Z * Z * Z) : Prop :=
  is_Some (lookup3 date.1.1 date.1.2 date.2 d).

(** ** Snapshot archive *)

Definition InventorySnapshot_get (g : Globals) (year month day : Z) : option loc :=
  lookup3 year month day (inventory_snapshot g).

(** [take_snapshot]: the argument [copy.deepcopy(inventory)] is evaluated
    before the last [setdefault] is called. *)
Definition take_snapshot (year month day : Z) (inventory : loc) (g : Globals)
    : option Globals :=
  '(copy, g) ← deepcopy inventory g;
  Some (set_inventory_snapshot
          (setdefault_then year ∅ (setdefault_then month ∅ (setdefault day copy))
             (inventory_snapshot g)) g).

(** [get_closest_inventory]: the outer [None] is an exception of the date
    lookup, the inner one the value [None] returned after a [KeyError]. *)
Definition get_closest_inventory (g : Globals) (year month day : Z)
    : option (option loc) :=
  '(year, month, day) ← get_closest_available_date year month day (inventory_snapshot g);
  Some (lookup3 year month day (inventory_snapshot g)).

(** ** Replay engine *)

Definition get_daily_price (g : Globals) (year month day : Z) (ticker : string)
    : option R :=
  prices ← lookup3 year month day (price_daily g); prices !! ticker.

Definition process_trade (year month day : Z) (ticker : string) (qty : Z)
    (order_type : string) (g : Globals) : option Globals :=
  eod_price ← get_daily_price g year month day ticker;
  assets ← inventory_objs g !! inventory_curr g;
  l ← assets !! ticker;
  curr_ticker ← asset_objs g !! l;
  if decide (order_type = BUY) then
    let g := set_trades (add_buy year month day (Buy.mk ticker eod_price qty) (trades g)) g in
    Some (set_asset_objs
      (<[l := Asset.mk (Asset.qty curr_ticker + qty)
                (Asset.cost curr_ticker + eod_price * IZR qty)
                (Asset.value curr_ticker)
                (Asset.cash curr_ticker - eod_price * IZR qty)]> (asset_objs g)) g)
  else
    temp_avg_price ← Asset.avg_price curr_ticker;
    let g := set_trades
      (add_sell year month day
         (Sell.mk ticker eod_price qty ((eod_price - temp_avg_price) * IZR qty)
            (temp_avg_price * IZR qty)) (trades g)) g in
    Some (set_asset_objs
      (<[l := Asset.mk (Asset.qty curr_ticker - qty)
                (Asset.cost curr_ticker - temp_avg_price * IZR qty)
                (Asset.value curr_ticker)
                (Asset.cash curr_ticker + eod_price * IZR qty)]> (asset_objs g)) g).

(** The body of the loop of [calc_unrealized_profits]. *)
Definition mark_ticker (year month day : Z) (acc : option Globals) (ticker : string)
    : option Globals :=
  g ← acc;
  eod_price ← get_daily_price g year month day ticker;
  assets ← inventory_objs g !! inventory_curr g;
  l ← assets !! ticker;
  curr_ticker ← asset_objs g !! l;
  Some (set_asset_objs
    (<[l := Asset.mk (Asset.qty curr_ticker) (Asset.cost curr_ticker)
              (eod_price * IZR (Asset.qty curr_ticker)) (Asset.cash curr_ticker)]>
       (asset_objs g)) g).

Definition calc_unrealized_profits (year month day : Z) (g : Globals) : option Globals :=
  fold_left (mark_ticker year month day) (all_tickers g) (Some g).

Definition daily_update (year month day : Z) (g : Globals) : option Globals :=
  g ← calc_unrealized_profits year month day g;
  take_snapshot year month day (inventory_curr g) g.

(** The module-level state after [inventory_curr = Inventory(...)],
    [inventory_snapshot = InventorySnapshot()] and [trades = TradeHistory()],
    for a price table that has been read. *)
Definition main_init (tickers : list string) (prices : dict3 (gmap string R)) : Globals :=
  let g := mkGlobals tickers prices ∅ ∅ 1%positive ∅ TradeHistory_init in
  let '(inv, g) := Inventory_init tickers g in
  set_inventory_curr inv g.

(** What the replay loop does to the state: a trade of the transaction file
    or the daily update of a date of the price file. *)
Inductive event :=
  | Trade (year month day : Z) (ticker : string) (qty : Z) (order_type : string)
  | Update (year month day : Z).

Definition do_event (acc : option Globals) (e : event) : option Globals :=
  g ← acc;
  match e with
  | Trade y m d ticker qty order_type => process_trade y m d ticker qty order_type g
  | Update y m d => daily_update y m d g
  end.

Definition replay (events : list event) (g : Globals) : option Globals :=
  fold_left do_event events (Some g).

(** ** Metrics *)

(** [profit / cost * 100 if cost > EPS else 0] *)
Definition percent (profit cost : R) : option R :=
  if Rgt_dec cost EPS then q ← pydiv profit cost; Some (q * 100)%R else Some 0%R.

(** The tuple returned by [get_profits_cost], by the names of its locals. *)
Record ProfitsCost := mkProfitsCost {
  realized_profits : R;
  realized_cost : R;
  realized_profits_percent : R;
  unrealized_profits : R;
  unrealized_cost : R;
  unrealized_profits_percent : R;
  total_profits : R;
  total_cost : R;
  total_profits_percent : R
}.

Definition get_profits_cost (g : Globals) (dates : list (Z * Z * Z))
    (tickers : list string) : option ProfitsCost :=
  let '(realized_profits, realized_cost) := sum_profits_costs (trades g) dates tickers in
  realized_profits_percent ← percent realized_profits realized_cost;
  '(year, month, day) ← last dates;
  ret ← get_closest_inventory g year month day;
  inventory ← ret;
  unrealized_profits ← Inventory_profits g inventory tickers;
  unrealized_cost ← Inventory_costs g inventory tickers;
  unrealized_profits_percent ← percent unrealized_profits unrealized_cost;
  let total_profits := (realized_profits + unrealized_profits)%R in
  let total_cost := (realized_cost + unrealized_cost)%R in
  total_profits_percent ← percent total_profits total_cost;
  Some (mkProfitsCost realized_profits realized_cost realized_profits_percent
          unrealized_profits unrealized_cost unrealized_profits_percent
          total_profits total_cost total_profits_percent).

(** *** numpy

    [np.mean] and [np.var] with their default [ddof=0] divide by
    the number [N] of observations; [np.cov] with its defaults
    ([bias=False], [ddof=None]) divides by [N - 1].  A result that numpy
    reports as nan or inf (empty input, zero denominator) is [None]. *)

Definition np_sum (x : list R) : R := fold_left Rplus x 0%R.

Definition np_mean (x : list R) : option R :=
  pydiv (np_sum x) (INR (length x)).

Definition np_var (x : list R) : option R :=
  avg ← np_mean x;
  pydiv (np_sum (map (λ v, (v - avg) * (v - avg))%R x)) (INR (length x)).

(** [np.cov(x, y)[0, 1]]; the two rows must have the same length. *)
Definition np_cov_0_1 (x y : list R) : option R :=
  if decide (length x = length y) then
    avg_x ← np_mean x;
    avg_y ← np_mean y;
    let fact := (INR (length x) - 1)%R in
    norm ← pydiv 1 fact;
    Some (np_sum (zip_with (λ a b, (a - avg_x) * (b - avg_y))%R x y) * norm)%R
  else None.

Definition get_beta (ret_ticker ret_market : list R) : option R :=
  covariance ← np_cov_0_1 ret_ticker ret_market;
  variance ← np_var ret_market;
  pydiv covariance variance.

(** The line that [get_sharpe_ratio] prints. *)
Definition sharpe_diagnostic : string :=
  "std is zero, cannot calculate Sharpe ratio. Used 1 for std instead.".

(** The end of [get_alpha], once [get_returns_timespan] has produced
    [ret_market], the market prices have given [total_return_of_market] and
    [get_profits_cost] has given [returns]. *)
Definition get_alpha_from (ret_market : list R) (total_return_of_market returns : R)
    : option R :=
  beta ← get_beta ret_market ret_market;
  Some (returns - RISK_FREE_RATE - beta * (total_return_of_market - RISK_FREE_RATE))%R.

(** ** Scenarios

    Concrete states on which the operations are run. *)

(** The scenario of the specification: 10 shares bought at 100 are held
    (cost basis 1000); 5 are sold at 110. *)
Definition scenario_prices : dict3 (gmap string R) :=
  {[ 2020 := {[ 1 := {[ 2 := {[ "AAPL" := 100%R ]}; 3 := {[ "AAPL" := 110%R ]} ]} ]} ]}.

Definition scenario_held : Globals :=
  mkGlobals ["AAPL"] scenario_prices
    {[ 1%positive := Asset.mk 10 1000 1000 (-1000) ]}
    {[ 1%positive := {[ "AAPL" := 1%positive ]} ]}
    1%positive ∅ TradeHistory_init.

(** What the copying loop of [deepcopy] has established once [items] have
    been copied from the store [h0]. *)
Definition copied (h0 : gmap loc Asset.t) (items : list (string * loc))
    (acc : gmap string loc * gmap loc loc * gmap loc Asset.t) : Prop :=
  let '(assets', memo, h) := acc in
  h0 ⊆ h ∧
  (∀ l l', memo !! l = Some l' →
     h0 !! l' = None ∧ is_Some (h0 !! l) ∧ h !! l' = h0 !! l) ∧
  (∀ t l', assets' !! t = Some l' → ∃ l, (t, l) ∈ items ∧ memo !! l = Some l') ∧
  (∀ t l, (t, l) ∈ items → ∃ l', assets' !! t = Some l' ∧ memo !! l = Some l').

(** An inventory object whose dictionary refers to [Asset] objects of the
    store only, as every inventory built by the program is. *)
Definition inventory_closed (g : Globals) (inv : loc) : Prop :=
  ∃ assets, inventory_objs g !! inv = Some assets ∧
    ∀ t l, assets !! t = Some l → is_Some (asset_objs g !! l).

(** The state [g] with a new inventory object [c ↦ assets'] and the store of
    [Asset] objects replaced by [h]. *)
Definition with_copy (c : loc) (assets' : gmap string loc) (h : gmap loc Asset.t)
    (g : Globals) : Globals :=
  set_inventory_objs (<[c := assets']> (inventory_objs g)) (set_asset_objs h g).

(** [g''] has left alone the objects that the step from [g] to [g'] created:
    whatever else happened to the store, those objects read in [g''] as they
    did in [g']. *)
Definition keeps_objects_created (g g' g'' : Globals) : Prop :=
  (∀ l, asset_objs g !! l = None → is_Some (asset_objs g' !! l) →
        asset_objs g'' !! l = asset_objs g' !! l) ∧
  (∀ i, inventory_objs g !! i = None → is_Some (inventory_objs g' !! i) →
        inventory_objs g'' !! i = inventory_objs g' !! i).

(** The position of the live inventory for [ticker]. *)
Definition position (g : Globals) (ticker : string) : option Asset.t :=
  asset_of g (inventory_curr g) ticker.

(** [g'] is [g] after the [Asset] object that the live inventory holds for
    [ticker] has been changed from [a] to [a']; the ledger, and nothing
    else, may have changed too. *)
Definition live_write (g g' : Globals) (ticker : string) (a a' : Asset.t) : Prop :=
  ∃ assets l,
    inventory_objs g !! inventory_curr g = Some assets ∧
    assets !! ticker = Some l ∧
    asset_objs g !! l = Some a ∧
    g' = set_asset_objs (<[l := a']> (asset_objs g)) (set_trades (trades g') g).

(** An event of the replay that does not sell more than is held: the
    quantity traded is positive, and a sell is for at most the quantity of
    the position. *)
Definition covered (g : Globals) (e : event) : Prop :=
  match e with
  | Trade y m d ticker qty order_type =>
      0 < qty ∧
      (order_type ≠ BUY → ∃ a, position g ticker = Some a ∧ qty ≤ Asset.qty a)
  | Update _ _ _ => True
  end.

(** The states that the replay reaches from [g0] through covered events. *)
Inductive reachable_covered (g0 : Globals) : Globals → Prop :=
  | reachable_init : reachable_covered g0 g0
  | reachable_step g e g' :
      reachable_covered g0 g → covered g e → do_event (Some g) e = Some g' →
      reachable_covered g0 g'.

(** The live inventory is a valid object and none of its positions is short. *)
Definition no_short (g : Globals) : Prop :=
  inventory_closed g (inventory_curr g) ∧
  ∀ ticker a, position g ticker = Some a → 0 ≤ Asset.qty a.

(** What the comprehension of [Inventory.__init__] has built from the store
    [h0] once it has gone through [tickers]: every ticker is bound to an
    [Asset] object of its own, created by the comprehension and holding the
    initial values. *)
Definition comprehended (h0 : gmap loc Asset.t) (tickers : list string)
    (acc : gmap string loc * gmap loc Asset.t) : Prop :=
  h0 ⊆ acc.2 ∧
  (∀ t, is_Some (acc.1 !! t) ↔ t ∈ tickers) ∧
  (∀ t l, acc.1 !! t = Some l → h0 !! l = None ∧ acc.2 !! l = Some Asset.init) ∧
  (∀ t t' l, acc.1 !! t = Some l → acc.1 !! t' = Some l → t = t').

(** An index with two dates, 2020-01-02 and 2020-01-20, and nothing in
    February. *)
Definition january_index : dict3 unit :=
  {[ 2020 := {[ 1 := {[ 2 := (); 20 := () ]} ]} ]}.

(** The percentage of the specification: [profit / cost * 100] when [cost]
    exceeds [EPS], and 0 otherwise. *)
Definition percent_value (profit cost : R) : R :=
  if Rgt_dec cost EPS then (profit / cost * 100)%R else 0%R.

(** A state in which the position of the scenario has been marked at 110 and
    committed for 2020-01-03. *)
Definition scenario_committed : Globals :=
  mkGlobals ["AAPL"] scenario_prices
    {[ 1%positive := Asset.mk 10 1000 1100 (-1000);
       2%positive := Asset.mk 10 1000 1100 (-1000) ]}
    {[ 1%positive := {[ "AAPL" := 1%positive ]};
       2%positive := {[ "AAPL" := 2%positive ]} ]}
    1%positive {[ 2020 := {[ 1 := {[ 3 := 2%positive ]} ]} ]} TradeHistory_init.

(** What the replay preserves of a state [g'] that a commit has produced
    from [g]: the live inventory is the one of [g], the inventory objects and
    the archive entries of [g'] are still there, and the [Asset] objects
    created by the commit read as they did in [g']. *)
Definition after_commit (g g' gk : Globals) : Prop :=
  inventory_curr gk = inventory_curr g ∧
  inventory_objs g' ⊆ inventory_objs gk ∧
  (∀ y m d c, lookup3 y m d (inventory_snapshot g') = Some c →
              lookup3 y m d (inventory_snapshot gk) = Some c) ∧
  (∀ l, asset_objs g !! l = None → is_Some (asset_objs g' !! l) →
        asset_objs gk !! l = asset_objs g' !! l).

(** No [Asset] object is bound to two tickers of the live inventory. *)
Definition no_sharing (g : Globals) : Prop :=
  ∀ assets t t' l,
    inventory_objs g !! inventory_curr g = Some assets →
    assets !! t = Some l → assets !! t' = Some l → t = t'.

(** [min(d.keys())]; [None] is the [ValueError] of an empty dictionary. *)
Definition min_key {V} (d : gmap Z V) : option Z :=
  foldr (λ key acc, Some (from_option (Z.min key) key acc)) None (map_to_list d).*1.

(** [get_first_month_day]: [d] is the dictionary of a year. *)
Definition get_first_month_day {V} (d : gmap Z (gmap Z V)) : option (Z * Z) :=
  month ← min_key d;
  dm ← d !! month;
  day ← min_key dm;
  Some (month, day).

(** An index in which January 2021 starts on the 4th, after a December 2020
    that ends on the 31st, and February 2021 starts on the 3rd. *)
Definition new_year_index : dict3 unit :=
  {[ 2020 := {[ 12 := {[ 30 := (); 31 := () ]} ]};
     2021 := {[ 1 := {[ 4 := (); 5 := () ]}; 2 := {[ 3 := () ]} ]} ]}.

(** The state of the scenario after the daily update of 2020-01-03: the
    position is marked at 110 and committed. *)
Definition scenario_updated : Globals :=
  mkGlobals ["AAPL"] scenario_prices
    {[ 1%positive := Asset.mk 10 1000 (110 * 10) (-1000);
       2%positive := Asset.mk 10 1000 (110 * 10) (-1000) ]}
    {[ 1%positive := {[ "AAPL" := 1%positive ]};
       2%positive := {[ "AAPL" := 2%positive ]} ]}
    1%positive {[ 2020 := {[ 1 := {[ 3 := 2%positive ]} ]} ]} TradeHistory_init.

(** ** Calendar days

    [datetime(year, month, day)] raises [ValueError] unless the year is in
    1..9999, the month in 1..12 and the day in the month; adding a day to
    9999-12-31 raises [OverflowError]. *)
Definition valid_date (date : Z * Z * Z) : Prop :=
  let '(y, m, d) := date in
  1 ≤ y ≤ 9999 ∧ ∃ last, monthrange_days y m = Some last ∧ 1 ≤ d ≤ last.

Definition datetime (y m d : Z) : option (Z * Z * Z) :=
  last ← monthrange_days y m;
  if bool_decide (1 ≤ y ≤ 9999 ∧ 1 ≤ d ≤ last) then Some (y, m, d) else None.

(** [date + relativedelta(days=1)] *)
Definition next_day (date : Z * Z * Z) : option (Z * Z * Z) :=
  let '(y, m, d) := date in
  last ← monthrange_days y m;
  if bool_decide (d < last) then Some (y, m, d + 1)
  else if bool_decide (m < 12) then Some (y, m + 1, 1)
  else if bool_decide (y < 9999) then Some (y + 1, 1, 1)
  else None.

#[global] Instance date_le_dec (a b : Z * Z * Z) : Decision (date_le a b).
Proof. destruct a as [[??]?], b as [[??]?]. unfold date_le. apply _. Defined.

(** The loop [while date_start <= date_end] of [get_all_dates].  Every round
    moves [date_start] one day forward, so the loop ends; [fuel] bounds the
    number of rounds, and [None] is also the answer when it does not
    suffice. *)
Fixpoint all_dates_loop (fuel : nat) (date_start date_end : Z * Z * Z)
    : option (list (Z * Z * Z)) :=
  if bool_decide (date_le date_start date_end) then
    match fuel with
    | O => None
    | S fuel =>
        next ← next_day date_start;
        dates ← all_dates_loop fuel next date_end;
        Some (date_start :: dates)
    end
  else Some [].

(** A number that grows by at least one from a valid date to the next day. *)
Definition date_rank (date : Z * Z * Z) : Z :=
  let '(y, m, d) := date in (y * 13 + m) * 32 + d.

Definition get_all_dates (year_start month_start day_start
    year_end month_end day_end : Z) : option (list (Z * Z * Z)) :=
  date_start ← datetime year_start month_start day_start;
  date_end ← datetime year_end month_end day_end;
  all_dates_loop (Z.to_nat (date_rank date_end - date_rank date_start + 1))
    date_start date_end.

Definition get_all_dates_year {V} (year : Z) (d : dict3 V) : option (list (Z * Z * Z)) :=
  dy ← d !! year;
  '(month_start, day_start) ← get_first_month_day dy;
  '(year_end, month_end, day_end) ← get_closest_available_date year 12 31 d;
  get_all_dates year month_start day_start year_end month_end day_end.

(** What [get_all_dates] lists between [s] and [e]: exactly the dates of the
    calendar from [s] to [e], each followed by its next day; so the list
    starts with [s] and ends with [e], and is empty when [s] is after [e]. *)
Definition listed (s e : Z * Z * Z) (l : list (Z * Z * Z)) : Prop :=
  (∀ date, date ∈ l ↔ valid_date date ∧ date_le s date ∧ date_le date e) ∧
  (∀ i a b, l !! i = Some a → l !! S i = Some b → next_day a = Some b) ∧
  (date_le s e → head l = Some s ∧ last l = Some e) ∧
  (¬ date_le s e → l = []).

(** ** Binary64 arithmetic

    Where rounding decides what the program does (a sum taken in another
    order, a test for an exact zero), the functions concerned are taken
    over Python's floats themselves: IEEE 754 binary64 numbers
    ([PrimFloat.float]) with their correctly rounded operations.  The
    infinities and nan are values here, as for numpy's [float64], and the
    operations do not raise. *)

#[local] Set Warnings "-inexact-float".

Module F64.

(** [float(n)] for the length [n] of a list. *)
Definition of_nat (n : nat) : float := of_uint63 (Uint63.of_Z (Z.of_nat n)).

Definition RISK_FREE_RATE : float := 0.02.

(** *** The trade ledger *)

Module Buy.
Record t := mk { ticker : string; price : float; qty : Z }.
End Buy.

Module Sell.
Record t := mk { ticker : string; price : float; qty : Z; profit : float; cost : float }.
End Sell.

Record TradeHistory := mkTradeHistory {
  buy_history : dict3 (gmap string Buy.t);
  sell_history : dict3 (gmap string Sell.t)
}.

Definition TradeHistory_init : TradeHistory :=
  {| buy_history := ∅; sell_history := ∅ |}.

Definition add_sell (year month day : Z) (sell : Sell.t) (self : TradeHistory) : TradeHistory :=
  {| buy_history := buy_history self;
     sell_history :=
       setdefault_then year ∅ (setdefault_then month ∅ (setdefault_then day ∅
         (setdefault (Sell.ticker sell) sell))) (sell_history self) |}.

Definition get_sell (self : TradeHistory) (year month day : Z) (ticker : string) : option Sell.t :=
  dt ← lookup3 year month day (sell_history self); dt !! ticker.

(** The body of the inner loop of [sum_profits_costs]: [profits += sell.profit]
    and [costs += sell.cost], each one rounded addition. *)
Definition sum_ticker (self : TradeHistory) (date : Z * Z * Z) (acc : float * float)
    (ticker : string) : float * float :=
  let '(year, month, day) := date in
  match get_sell self year month day ticker with
  | Some sell => ((acc.1 + Sell.profit sell)%float, (acc.2 + Sell.cost sell)%float)
  | None => acc
  end.

(** The two nested loops, started with the accumulators at [acc]. *)
Definition sum_loop (self : TradeHistory) (dates : list (Z * Z * Z))
    (tickers : list string) (acc : float * float) : float * float :=
  fold_left (λ acc date, fold_left (sum_ticker self date) tickers acc) dates acc.

Definition sum_profits_costs (self : TradeHistory) (dates : list (Z * Z * Z))
    (tickers : list string) : float * float :=
  sum_loop self dates tickers (0%float, 0%float).

(** *** numpy on [float64] arrays

    [np.add.reduce] adds a contiguous array by pairwise summation: fewer
    than 8 numbers from left to right; up to [PW_BLOCKSIZE] numbers in 8
    interleaved partial sums that are then added two by two, the numbers
    beyond the last multiple of 8 from left to right after that; a longer
    array as the sum of its two halves, the first one cut at a multiple
    of 8.  (The sign of a zero sum is not followed.) *)

Definition PW_BLOCKSIZE : nat := 128.

(** The loop over the blocks of 8 that follow the first one; [r] holds the 8
    partial sums. *)
Fixpoint unrolled (blocks : nat) (r a : list float) : list float * list float :=
  match blocks with
  | O => (r, a)
  | S blocks => unrolled blocks (zip_with PrimFloat.add r (take 8 a)) (drop 8 a)
  end.

Definition block_sum (a : list float) : float :=
  let '(r, rest) := unrolled (length a / 8 - 1) (take 8 a) (drop 8 a) in
  match r with
  | [r0; r1; r2; r3; r4; r5; r6; r7] =>
      fold_left PrimFloat.add rest (((r0 + r1) + (r2 + r3)) + ((r4 + r5) + (r6 + r7)))%float
  | _ => nan
  end.

Fixpoint pairwise_sum (fuel : nat) (a : list float) : float :=
  let n := length a in
  if bool_decide (n < 8)%nat then fold_left PrimFloat.add a 0%float
  else if bool_decide (n ≤ PW_BLOCKSIZE)%nat then block_sum a
  else match fuel with
       | O => nan
       | S fuel =>
           let n2 := (n / 2 - (n / 2) mod 8)%nat in
           (pairwise_sum fuel (take n2 a) + pairwise_sum fuel (drop n2 a))%float
       end.

Definition np_sum (a : list float) : float := pairwise_sum (length a) a.

(** [np.mean], [np.var] and [np.std] with their default [ddof=0]. *)
Definition np_mean (x : list float) : float := (np_sum x / of_nat (length x))%float.

Definition np_var (x : list float) : float :=
  let arrmean := np_mean x in
  (np_sum (map (λ v, (v - arrmean) * (v - arrmean))%float x) / of_nat (length x))%float.

Definition np_std (x : list float) : float := PrimFloat.sqrt (np_var x).

Definition get_std (ret_ticker : list float) : float := np_std ret_ticker.

(** [get_sharpe_ratio]: the value returned and the lines printed. *)
Definition get_sharpe_ratio (ret_ticker : list float) : float * list string :=
  let average_return := np_mean ret_ticker in
  let volatility := np_std ret_ticker in
  if (volatility =? 0)%float
  then (((average_return - RISK_FREE_RATE) / 1)%float, [sharpe_diagnostic])
  else (((average_return - RISK_FREE_RATE) / volatility)%float, []).

End F64.


(** The books of a position over a list of buys [(year, month, day, qty)] of
    [ticker], kept as [process_trade] keeps them: [qty += qty],
    [cost += eod_price * qty] and [cash -= eod_price * qty], buy after buy
    from the position [a]. *)
Definition buy_books (g : Globals) (ticker : string) (a : Asset.t)
    (buys : list (Z * Z * Z * Z)) : option Asset.t :=
  fold_left (λ acc '(y, m, d, n),
               a ← acc; p ← get_daily_price g y m d ticker;
               Some (Asset.mk (Asset.qty a + n) (Asset.cost a + p * IZR n)
                       (Asset.value a) (Asset.cash a - p * IZR n)))
            buys (Some a).

(** * Properties *)

(** ** Dictionaries *)

Section dictionaries.
Context `{Countable K} {V : Type}.
Implicit Types (d : gmap K V) (k : K) (v : V).

Lemma lookup_setdefault k k' v d :
  setdefault k v d !! k' =
  match d !! k' with
  | Some x => Some x
  | None => if decide (k = k') then Some v else None
  end.
Proof.
  unfold setdefault. destruct (d !! k) as [x|] eqn:E.
  - destruct (d !! k') eqn:E'; [done|]. case_decide; [congruence|done].
  - rewrite lookup_insert. case_decide; subst.
    + by rewrite E.
    + by destruct (d !! k').
Qed.

Lemma setdefault_present k v d : is_Some (d !! k) → setdefault k v d = d.
Proof. intros [x Hx]. unfold setdefault. by rewrite Hx. Qed.

Lemma lookup_setdefault_then k k' v (op : V → V) d :
  setdefault_then k v op d !! k' =
  if decide (k = k') then Some (op (default v (d !! k))) else d !! k'.
Proof. unfold setdefault_then. by rewrite lookup_insert. Qed.

End dictionaries.

Lemma lookup_month_setdefault_then {V} (op : gmap Z V → gmap Z V) y m y' m' (d : dict3 V) :
  (dy ← setdefault_then y ∅ (setdefault_then m ∅ op) d !! y'; dy !! m') =
  if decide ((y, m) = (y', m')) then Some (op (month_of y m d))
  else dy ← d !! y'; dy !! m'.
Proof.
  rewrite lookup_setdefault_then. destruct (decide (y = y')) as [->|Hy]; simpl.
  - rewrite lookup_setdefault_then. destruct (decide (m = m')) as [->|Hm].
    + rewrite decide_True by done. unfold month_of.
      by destruct (d !! y') as [dy|]; simpl; [destruct (dy !! m')|].
    + rewrite decide_False by congruence. by destruct (d !! y').
  - by rewrite decide_False by congruence.
Qed.

Lemma lookup3_setdefault_then {V} (op : gmap Z V → gmap Z V) y m y' m' d' (d : dict3 V) :
  lookup3 y' m' d' (setdefault_then y ∅ (setdefault_then m ∅ op) d) =
  if decide ((y, m) = (y', m')) then op (month_of y m d) !! d'
  else lookup3 y' m' d' d.
Proof.
  unfold lookup3.
  pose proof (lookup_month_setdefault_then op y m y' m' d) as Hm.
  destruct (setdefault_then y ∅ (setdefault_then m ∅ op) d !! y') as [dy|];
    simpl in *.
  - rewrite Hm. case_decide; [done|]. by destruct (d !! y').
  - case_decide; [done|]. destruct (d !! y'); simpl in *; by rewrite <- ?Hm.
Qed.

Lemma month_of_lookup {V} y m d' (d : dict3 V) :
  month_of y m d !! d' = lookup3 y m d' d.
Proof.
  unfold month_of, lookup3. destruct (d !! y) as [dy|]; simpl; [|done].
  by destruct (dy !! m).
Qed.

(** ** Trade ledger *)

Lemma get_buy_add_buy h y m d b y' m' d' t' :
  get_buy (add_buy y m d b h) y' m' d' t' =
  match get_buy h y' m' d' t' with
  | Some b0 => Some b0
  | None => if decide ((y, m, d, Buy.ticker b) = (y', m', d', t')) then Some b else None
  end.
Proof.
  unfold get_buy, add_buy; simpl. rewrite lookup3_setdefault_then.
  destruct (decide ((y, m) = (y', m'))) as [[= <- <-]|Hym].
  - rewrite lookup_setdefault_then, <- month_of_lookup.
    destruct (decide (d = d')) as [<-|Hd]; simpl.
    + rewrite lookup_setdefault.
      destruct (month_of y m (buy_history h) !! d) as [dt|]; simpl.
      * destruct (dt !! t'); [done|]. repeat case_decide; congruence.
      * rewrite lookup_empty. repeat case_decide; congruence.
    + rewrite (decide_False (P := _ = (y, m, d', t'))) by congruence.
      destruct (month_of y m (buy_history h) !! d') as [dt|]; simpl; [|done].
      by destruct (dt !! t').
  - destruct (lookup3 y' m' d' (buy_history h)) as [dt|]; simpl.
    + destruct (dt !! t'); [done|]. by rewrite decide_False by congruence.
    + by rewrite decide_False by congruence.
Qed.

Lemma get_sell_add_sell h y m d s y' m' d' t' :
  get_sell (add_sell y m d s h) y' m' d' t' =
  match get_sell h y' m' d' t' with
  | Some s0 => Some s0
  | None => if decide ((y, m, d, Sell.ticker s) = (y', m', d', t')) then Some s else None
  end.
Proof.
  unfold get_sell, add_sell; simpl. rewrite lookup3_setdefault_then.
  destruct (decide ((y, m) = (y', m'))) as [[= <- <-]|Hym].
  - rewrite lookup_setdefault_then, <- month_of_lookup.
    destruct (decide (d = d')) as [<-|Hd]; simpl.
    + rewrite lookup_setdefault.
      destruct (month_of y m (sell_history h) !! d) as [dt|]; simpl.
      * destruct (dt !! t'); [done|]. repeat case_decide; congruence.
      * rewrite lookup_empty. repeat case_decide; congruence.
    + rewrite (decide_False (P := _ = (y, m, d', t'))) by congruence.
      destruct (month_of y m (sell_history h) !! d') as [dt|]; simpl; [|done].
      by destruct (dt !! t').
  - destruct (lookup3 y' m' d' (sell_history h)) as [dt|]; simpl.
    + destruct (dt !! t'); [done|]. by rewrite decide_False by congruence.
    + by rewrite decide_False by congruence.
Qed.

Lemma get_buy_add_sell h y m d s y' m' d' t' :
  get_buy (add_sell y m d s h) y' m' d' t' = get_buy h y' m' d' t'.
Proof. done. Qed.

Lemma get_sell_add_buy h y m d b y' m' d' t' :
  get_sell (add_buy y m d b h) y' m' d' t' = get_sell h y' m' d' t'.
Proof. done. Qed.

Lemma get_buy_do_calls calls h y m d t :
  get_buy (do_calls calls h) y m d t =
  match get_buy h y m d t with
  | Some b0 => Some b0
  | None => first_buy calls (y, m, d, t)
  end.
Proof.
  revert h. induction calls as [|[y' m' d' b|y' m' d' s] calls IH]; intros h; simpl.
  - by destruct (get_buy h y m d t).
  - unfold do_calls in *; simpl. rewrite IH, get_buy_add_buy.
    destruct (get_buy h y m d t); [done|]. by case_decide.
  - unfold do_calls in *; simpl. by rewrite IH, get_buy_add_sell.
Qed.

Lemma get_sell_do_calls calls h y m d t :
  get_sell (do_calls calls h) y m d t =
  match get_sell h y m d t with
  | Some s0 => Some s0
  | None => first_sell calls (y, m, d, t)
  end.
Proof.
  revert h. induction calls as [|[y' m' d' b|y' m' d' s] calls IH]; intros h; simpl.
  - by destruct (get_sell h y m d t).
  - unfold do_calls in *; simpl. by rewrite IH, get_sell_add_buy.
  - unfold do_calls in *; simpl. rewrite IH, get_sell_add_sell.
    destruct (get_sell h y m d t); [done|]. by case_decide.
Qed.

Lemma setdefault_then_id `{Countable K} {V} (k : K) (v : V) (op : V → V) (d : gmap K V) x :
  d !! k = Some x → op x = x → setdefault_then k v op d = d.
Proof.
  intros Hk Hop. unfold setdefault_then. rewrite Hk; simpl. rewrite Hop.
  by apply insert_id.
Qed.

Lemma add_buy_ignored h y m d b :
  is_Some (get_buy h y m d (Buy.ticker b)) → add_buy y m d b h = h.
Proof.
  intros [b0 Hb]. unfold get_buy, lookup3 in Hb. destruct h as [bh sh]; simpl in *.
  destruct (bh !! y) as [dy|] eqn:Ey; [|done]. simpl in Hb.
  destruct (dy !! m) as [dm|] eqn:Em; [|done]. simpl in Hb.
  destruct (dm !! d) as [dt|] eqn:Ed; [|done]. simpl in Hb.
  unfold add_buy; simpl. f_equal.
  apply (setdefault_then_id _ _ _ _ _ Ey), (setdefault_then_id _ _ _ _ _ Em),
    (setdefault_then_id _ _ _ _ _ Ed).
  apply setdefault_present. by exists b0.
Qed.

Lemma add_sell_ignored h y m d s :
  is_Some (get_sell h y m d (Sell.ticker s)) → add_sell y m d s h = h.
Proof.
  intros [s0 Hs]. unfold get_sell, lookup3 in Hs. destruct h as [bh sh]; simpl in *.
  destruct (sh !! y) as [dy|] eqn:Ey; [|done]. simpl in Hs.
  destruct (dy !! m) as [dm|] eqn:Em; [|done]. simpl in Hs.
  destruct (dm !! d) as [dt|] eqn:Ed; [|done]. simpl in Hs.
  unfold add_sell; simpl. f_equal.
  apply (setdefault_then_id _ _ _ _ _ Ey), (setdefault_then_id _ _ _ _ _ Em),
    (setdefault_then_id _ _ _ _ _ Ed).
  apply setdefault_present. by exists s0.
Qed.

Lemma get_buy_init y m d t : get_buy TradeHistory_init y m d t = None.
Proof. done. Qed.

Lemma get_sell_init y m d t : get_sell TradeHistory_init y m d t = None.
Proof. done. Qed.

Lemma first_buy_app calls later key :
  first_buy (calls ++ later) key =
  match first_buy calls key with Some b => Some b | None => first_buy later key end.
Proof.
  induction calls as [|[y m d b|y m d s] calls IH]; simpl; [done| |done].
  by case_decide.
Qed.

Lemma first_sell_app calls later key :
  first_sell (calls ++ later) key =
  match first_sell calls key with Some s => Some s | None => first_sell later key end.
Proof.
  induction calls as [|[y m d b|y m d s] calls IH]; simpl; [done|done|].
  by case_decide.
Qed.

(** C8: on a ledger built by any sequence of [add_buy] and [add_sell] calls,
    the lookup under a key [(year, month, day, ticker)] gives the single
    event stored there, and that event is the first [Buy] (resp. [Sell]) the
    sequence inserted under the key; once a key holds an event, a later
    insert under the same key leaves the whole ledger as it was. *)
Theorem ledger_first_insert_wins (calls later : list ledger_call) (y m d : Z) (t : string) :
  let h := do_calls calls TradeHistory_init in
  get_buy h y m d t = first_buy calls (y, m, d, t) ∧
  get_sell h y m d t = first_sell calls (y, m, d, t) ∧
  (∀ b0 p q,
     let h1 := do_calls (calls ++ CallAddBuy y m d b0 :: later) TradeHistory_init in
     add_buy y m d (Buy.mk (Buy.ticker b0) p q) h1 = h1) ∧
  (∀ s0 p q pr c,
     let h1 := do_calls (calls ++ CallAddSell y m d s0 :: later) TradeHistory_init in
     add_sell y m d (Sell.mk (Sell.ticker s0) p q pr c) h1 = h1).
Proof.
  simpl. rewrite get_buy_do_calls, get_sell_do_calls, get_buy_init, get_sell_init.
  repeat split; intros.
  - apply add_buy_ignored; simpl.
    rewrite get_buy_do_calls, get_buy_init, first_buy_app; simpl.
    rewrite decide_True by done. by destruct (first_buy calls _).
  - apply add_sell_ignored; simpl.
    rewrite get_sell_do_calls, get_sell_init, first_sell_app; simpl.
    rewrite decide_True by done. by destruct (first_sell calls _).
Qed.

(** ** Selling from a position *)

Lemma pydiv_nonzero a b : b ≠ 0%R → pydiv a b = Some (a / b)%R.
Proof. intros Hb. unfold pydiv. by rewrite decide_False. Qed.

Lemma avg_price_total (a : Asset.t) :
  Asset.avg_price a =
  Some (if decide (Asset.qty a = 0%Z) then 0 else Asset.cost a / IZR (Asset.qty a))%R.
Proof.
  unfold Asset.avg_price. destruct (decide (Asset.qty a = 0)) as [Hq|Hq].
  - by rewrite decide_False by (intros ?; done).
  - rewrite decide_True by done. apply pydiv_nonzero.
    intros H0. apply Hq. by apply eq_IZR_R0.
Qed.

Lemma asset_of_write g l a ticker inv assets :
  inventory_objs g !! inv = Some assets →
  assets !! ticker = Some l →
  asset_of (set_asset_objs (<[l := a]> (asset_objs g)) g) inv ticker = Some a.
Proof.
  intros Hinv Hl. unfold asset_of; simpl. rewrite Hinv; simpl. rewrite Hl; simpl.
  apply lookup_insert_eq.
Qed.

(** C1: a sell of [n] shares of [ticker] at the day's price [p], from a
    position with quantity [q] and cost basis [c], uses [avg = c / q] (0 when
    [q = 0]); it raises nothing, hands to the ledger a [Sell] with profit
    [(p - avg) * n] and cost [avg * n] (which the ledger stores when the key
    is free), and leaves the position at quantity [q - n], cost basis
    [c - avg * n] and cash increased by [p * n]. *)
Theorem process_trade_sell (g : Globals) (y m d : Z) (ticker order_type : string)
    (n : Z) (p : R) (a : Asset.t) :
  order_type ≠ BUY →
  get_daily_price g y m d ticker = Some p →
  asset_of g (inventory_curr g) ticker = Some a →
  let avg := (if decide (Asset.qty a = 0%Z) then 0
              else Asset.cost a / IZR (Asset.qty a))%R in
  let sell := Sell.mk ticker p n ((p - avg) * IZR n) (avg * IZR n) in
  Asset.avg_price a = Some avg ∧
  ∃ g', process_trade y m d ticker n order_type g = Some g' ∧
    trades g' = add_sell y m d sell (trades g) ∧
    (get_sell (trades g) y m d ticker = None →
     get_sell (trades g') y m d ticker = Some sell) ∧
    asset_of g' (inventory_curr g') ticker =
      Some (Asset.mk (Asset.qty a - n) (Asset.cost a - avg * IZR n)
              (Asset.value a) (Asset.cash a + p * IZR n)).
Proof.
  intros Hsell Hp Ha avg sell. split; [apply avg_price_total|].
  unfold asset_of in Ha.
  destruct (inventory_objs g !! inventory_curr g) as [assets|] eqn:Hinv; [|done].
  simpl in Ha. destruct (assets !! ticker) as [l|] eqn:Hl; [|done]. simpl in Ha.
  unfold process_trade. rewrite Hp, Hinv; simpl. rewrite Hl; simpl. rewrite Ha; simpl.
  rewrite decide_False by done. rewrite avg_price_total; simpl.
  eexists; split; [done|]. split; [done|]. split.
  - intros Hfree; simpl. rewrite get_sell_add_sell, Hfree.
    by rewrite decide_True.
  - by apply (asset_of_write (set_trades _ g) l _ ticker _ assets).
Qed.

Lemma process_trade_sell_witness :
  ∃ g', process_trade 2020 1 3 "AAPL" 5 SELL scenario_held = Some g' ∧
    get_sell (trades g') 2020 1 3 "AAPL" =
      Some (Sell.mk "AAPL" 110 5 ((110 - 1000 / 10) * 5) (1000 / 10 * 5)) ∧
    asset_of g' (inventory_curr g') "AAPL" =
      Some (Asset.mk (10 - 5) (1000 - 1000 / 10 * 5) 1000 (-1000 + 110 * 5)).
Proof.
  destruct (process_trade_sell scenario_held 2020 1 3 "AAPL" SELL 5 110
              (Asset.mk 10 1000 1000 (-1000)))
    as (_ & g' & Hrun & _ & Hsell & Hpos).
  - discriminate.
  - reflexivity.
  - reflexivity.
  - exists g'. split; [exact Hrun|]. split; [|exact Hpos].
    apply Hsell. reflexivity.
Defined.

(** ** Copies of an inventory *)

(** Membership in a list extended by one item at its end. *)
Ltac in_app := apply elem_of_app; solve [by left | right; by constructor].

Section deepcopy_loop.
Variable h0 : gmap loc Asset.t.

Lemma deepcopy_loop_copied (items : list (string * loc)) :
  NoDup items.*1 →
  (∀ t l, (t, l) ∈ items → is_Some (h0 !! l)) →
  ∃ acc, fold_left deepcopy_item items (Some (∅, ∅, h0)) = Some acc ∧ copied h0 items acc.
Proof.
  induction items as [|[t l] items IH] using rev_ind; intros Hnd Hclosed.
  - exists (∅, ∅, h0). split; [done|]. split_and!; [done|..]; intros ?? Hm;
      solve [by rewrite lookup_empty in Hm | by apply elem_of_nil in Hm].
  - rewrite fmap_app in Hnd. apply NoDup_app in Hnd as (Hnd & Hnew & _).
    destruct IH as ([[assets' memo] h] & Hrun & Hsub & Hmemo & Hfrom & Hto);
      [done|intros t0 l0 ?; apply (Hclosed t0 l0); in_app|].
    rewrite fold_left_app, Hrun; simpl.
    assert (Ht : ∀ l1, (t, l1) ∉ items).
    { intros l1 Hin. apply (Hnew t); [|by constructor].
      apply list_elem_of_fmap. by exists (t, l1). }
    destruct (Hclosed t l) as [a Ha]; [in_app|].
    destruct (memo !! l) as [l'|] eqn:Hl.
    + eexists; split; [done|]. split_and!; try done.
      * intros t1 l1. rewrite lookup_insert. case_decide as Ht1.
        -- intros [= <-]. subst t1. exists l. split; [in_app|done].
        -- intros Hl1. destruct (Hfrom _ _ Hl1) as (l2 & ? & ?).
           exists l2. split; [in_app|done].
      * intros t1 l1 [Hin|Hin%list_elem_of_singleton]%elem_of_app.
        -- destruct (Hto _ _ Hin) as (l2 & ? & ?). exists l2. split; [|done].
           rewrite lookup_insert_ne; [done|]. intros <-. by apply (Ht l1).
        -- injection Hin as -> ->. exists l'. by rewrite lookup_insert_eq.
    + rewrite (lookup_weaken _ _ _ _ Ha Hsub); simpl.
      pose proof (is_fresh (dom h)) as Hfresh. set (l' := fresh (dom h)) in *.
      assert (Hl'h : h !! l' = None) by by apply not_elem_of_dom.
      assert (Hl'0 : h0 !! l' = None).
      { destruct (h0 !! l') eqn:E; [|done].
        by rewrite (lookup_weaken _ _ _ _ E Hsub) in Hl'h. }
      eexists; split; [done|]. split_and!.
      * etrans; [exact Hsub|]. by apply insert_subseteq.
      * intros l1 l1'. rewrite lookup_insert. case_decide.
        -- intros [= <-]. subst l1. rewrite lookup_insert_eq.
           split_and!; [done|by eexists|done].
        -- intros Hm. destruct (Hmemo _ _ Hm) as (? & [a1 Ha1] & Heq).
           split_and!; [done|by eexists|].
           rewrite lookup_insert_ne; [done|]. intros <-.
           rewrite Hl'h in Heq. congruence.
      * intros t1 l1. rewrite lookup_insert. case_decide as Ht1.
        -- intros [= <-]. subst t1. exists l. split; [in_app|].
           by rewrite lookup_insert_eq.
        -- intros Hl1. destruct (Hfrom _ _ Hl1) as (l2 & ? & Hm2).
           exists l2. split; [in_app|].
           rewrite lookup_insert_ne; [done|]. intros <-. congruence.
      * intros t1 l1 [Hin|Hin%list_elem_of_singleton]%elem_of_app.
        -- destruct (Hto _ _ Hin) as (l2 & ? & Hm2). exists l2. split.
           ++ rewrite lookup_insert_ne; [done|]. intros <-. by apply (Ht l1).
           ++ rewrite lookup_insert_ne; [done|]. intros <-. congruence.
        -- injection Hin as -> ->. exists l'. by rewrite !lookup_insert_eq.
Qed.

End deepcopy_loop.

Lemma deepcopy_loop_none items : fold_left deepcopy_item items None = None.
Proof. by induction items. Qed.

Lemma deepcopy_loop_extends items assets0 memo0 h0 assets' memo h :
  fold_left deepcopy_item items (Some (assets0, memo0, h0)) = Some (assets', memo, h) →
  h0 ⊆ h.
Proof.
  revert assets0 memo0 h0. induction items as [|[t l] items IH]; intros a0 m0 h0; simpl.
  - by intros [= _ _ ->].
  - destruct (m0 !! l) as [l'|]; simpl; [by apply IH|].
    destruct (h0 !! l) as [a|]; simpl; [|by rewrite deepcopy_loop_none].
    intros Hrun%IH. etrans; [|exact Hrun].
    apply insert_subseteq, not_elem_of_dom, is_fresh.
Qed.

(** [deepcopy] only allocates: the copy is a new inventory object and the
    [Asset] objects that existed are left as they are. *)
Lemma deepcopy_frame inv g c g' :
  deepcopy inv g = Some (c, g') →
  ∃ assets' h, g' = with_copy c assets' h g ∧
    inventory_objs g !! c = None ∧ asset_objs g ⊆ h.
Proof.
  unfold deepcopy. destruct (inventory_objs g !! inv) as [assets|]; [|done]. simpl.
  destruct (fold_left _ _ _) as [[[assets' memo] h]|] eqn:Hrun; [|done]. simpl.
  intros [= <- <-]. exists assets', h. split_and!; [done| |].
  - apply not_elem_of_dom, is_fresh.
  - by apply deepcopy_loop_extends in Hrun.
Qed.

(** On a closed inventory [deepcopy] succeeds; the copy is made of new
    objects only and holds, ticker by ticker, what the original holds. *)
Lemma deepcopy_closed inv g :
  inventory_closed g inv →
  ∃ c assets' h, deepcopy inv g = Some (c, with_copy c assets' h g) ∧
    inventory_objs g !! c = None ∧ asset_objs g ⊆ h ∧
    (∀ t l', assets' !! t = Some l' → asset_objs g !! l' = None ∧ is_Some (h !! l')) ∧
    (∀ t, asset_of (with_copy c assets' h g) c t = asset_of g inv t).
Proof.
  intros (assets & Hinv & Hclosed).
  destruct (deepcopy_loop_copied (asset_objs g) (map_to_list assets))
    as ([[assets' memo] h] & Hrun & Hsub & Hmemo & Hfrom & Hto).
  { apply NoDup_fst_map_to_list. }
  { intros t l Hin%elem_of_map_to_list. by apply (Hclosed t). }
  exists (fresh (dom (inventory_objs g))), assets', h. split_and!.
  - unfold deepcopy. rewrite Hinv; simpl. by rewrite Hrun.
  - apply not_elem_of_dom, is_fresh.
  - done.
  - intros t l' (l & _ & Hm)%Hfrom. destruct (Hmemo _ _ Hm) as (? & Hl & Heq).
    split; [done|]. by rewrite Heq.
  - intros t. unfold asset_of, with_copy; simpl.
    rewrite lookup_insert_eq, Hinv; simpl.
    destruct (assets' !! t) as [l'|] eqn:Ht'; simpl.
    + destruct (Hfrom _ _ Ht') as (l & Hin%elem_of_map_to_list & Hm).
      rewrite Hin; simpl. by destruct (Hmemo _ _ Hm) as (_ & _ & ->).
    + destruct (assets !! t) as [l|] eqn:Ht; [|done].
      apply elem_of_map_to_list, Hto in Ht as (l' & Hl' & _). congruence.
Qed.

(** ** Snapshot archive *)

Lemma lookup3_commit {V} y m d (c : V) y' m' d' (s : dict3 V) :
  lookup3 y' m' d' (setdefault_then y ∅ (setdefault_then m ∅ (setdefault d c)) s) =
  match lookup3 y' m' d' s with
  | Some x => Some x
  | None => if decide ((y, m, d) = (y', m', d')) then Some c else None
  end.
Proof.
  rewrite lookup3_setdefault_then.
  destruct (decide ((y, m) = (y', m'))) as [[= <- <-]|Hym].
  - rewrite lookup_setdefault, month_of_lookup.
    destruct (lookup3 y m d' s); [done|]. repeat case_decide; congruence.
  - destruct (lookup3 y' m' d' s); [done|]. by rewrite decide_False by congruence.
Qed.

Lemma commit_present {V} y m d (c : V) (s : dict3 V) :
  is_Some (lookup3 y m d s) →
  setdefault_then y ∅ (setdefault_then m ∅ (setdefault d c)) s = s.
Proof.
  intros [x Hx]. unfold lookup3 in Hx.
  destruct (s !! y) as [dy|] eqn:Ey; [|done]. simpl in Hx.
  destruct (dy !! m) as [dm|] eqn:Em; [|done]. simpl in Hx.
  apply (setdefault_then_id _ _ _ _ _ Ey), (setdefault_then_id _ _ _ _ _ Em).
  apply setdefault_present. by exists x.
Qed.

Lemma asset_of_extends g g' i t a :
  asset_objs g ⊆ asset_objs g' → inventory_objs g ⊆ inventory_objs g' →
  asset_of g i t = Some a → asset_of g' i t = Some a.
Proof.
  intros Ha Hi. unfold asset_of.
  destruct (inventory_objs g !! i) as [assets|] eqn:Ei; [|done]. simpl.
  rewrite (lookup_weaken _ _ _ _ Ei Hi); simpl.
  destruct (assets !! t) as [l|]; [|done]. simpl.
  intros Hl. by rewrite (lookup_weaken _ _ _ _ Hl Ha).
Qed.

(** C7: [take_snapshot] on a valid inventory succeeds and leaves every object
    of the store as it was.  For a date without a snapshot it stores a new
    inventory object that holds, ticker by ticker, what the inventory holds,
    and that is made of objects created by the commit, so that whatever is
    done afterwards to the objects that existed before (the live inventory
    and its positions are among them) leaves what the stored snapshot holds
    unchanged.  For a date that already has a snapshot the archive is left as
    it was: the first commit stays. *)
Theorem take_snapshot_first_commit_wins (g : Globals) (y m d : Z) (inv : loc) :
  inventory_closed g inv →
  ∃ g', take_snapshot y m d inv g = Some g' ∧
    inventory_curr g' = inventory_curr g ∧
    asset_objs g ⊆ asset_objs g' ∧ inventory_objs g ⊆ inventory_objs g' ∧
    (∀ i t a, asset_of g i t = Some a → asset_of g' i t = Some a) ∧
    match InventorySnapshot_get g y m d with
    | None =>
        ∃ c, InventorySnapshot_get g' y m d = Some c ∧
          inventory_objs g !! c = None ∧
          (∀ t, asset_of g' c t = asset_of g inv t) ∧
          (∀ g'', keeps_objects_created g g' g'' →
                  ∀ t, asset_of g'' c t = asset_of g' c t)
    | Some c0 =>
        InventorySnapshot_get g' y m d = Some c0 ∧
        inventory_snapshot g' = inventory_snapshot g
    end.
Proof.
  intros Hclosed.
  destruct (deepcopy_closed inv g Hclosed)
    as (c & assets' & h & Hcopy & Hc & Hsub & Hnew & Hsame).
  unfold take_snapshot. rewrite Hcopy; simpl. eexists; split; [done|].
  assert (Hinvs : inventory_objs g ⊆ <[c := assets']> (inventory_objs g))
    by by apply insert_subseteq.
  split_and!; simpl; [done|done|done| |].
  - intros i t a. by apply asset_of_extends.
  - unfold InventorySnapshot_get; simpl. rewrite lookup3_commit.
    destruct (lookup3 y m d (inventory_snapshot g)) as [c0|] eqn:Hget.
    + split; [done|]. apply commit_present. by rewrite Hget.
    + exists c. rewrite decide_True by done. split_and!; [done|done|exact Hsame|].
      intros g'' [Hassets Hinvobjs] t. unfold asset_of; simpl.
      rewrite Hinvobjs; simpl; [|done|by rewrite lookup_insert_eq].
      rewrite lookup_insert_eq; simpl.
      destruct (assets' !! t) as [l'|] eqn:Ht; [|done]. simpl.
      destruct (Hnew _ _ Ht). by apply Hassets.
Qed.

(** ** Writes of the replay engine *)

Lemma process_trade_write y m d ticker n order_type g g' :
  process_trade y m d ticker n order_type g = Some g' →
  ∃ a a', live_write g g' ticker a a' ∧
    Asset.qty a' = if decide (order_type = BUY) then Asset.qty a + n else Asset.qty a - n.
Proof.
  unfold process_trade.
  destruct (get_daily_price g y m d ticker) as [p|]; [|done]. simpl.
  destruct (inventory_objs g !! inventory_curr g) as [assets|] eqn:Hinv; [|done]. simpl.
  destruct (assets !! ticker) as [l|] eqn:Hl; [|done]. simpl.
  destruct (asset_objs g !! l) as [a|] eqn:Ha; [|done]. simpl.
  case_decide.
  - intros [= <-]. eexists a, _. split; [by exists assets, l|done].
  - rewrite avg_price_total; simpl.
    intros [= <-]. eexists a, _. split; [by exists assets, l|done].
Qed.

Lemma mark_ticker_write y m d ticker g g' :
  mark_ticker y m d (Some g) ticker = Some g' →
  ∃ a a', live_write g g' ticker a a' ∧ Asset.qty a' = Asset.qty a.
Proof.
  unfold mark_ticker; simpl.
  destruct (get_daily_price g y m d ticker) as [p|]; [|done]. simpl.
  destruct (inventory_objs g !! inventory_curr g) as [assets|] eqn:Hinv; [|done]. simpl.
  destruct (assets !! ticker) as [l|] eqn:Hl; [|done]. simpl.
  destruct (asset_objs g !! l) as [a|] eqn:Ha; [|done]. simpl.
  intros [= <-]. eexists a, _. split; [by exists assets, l|done].
Qed.

Lemma mark_ticker_none y m d tickers :
  fold_left (mark_ticker y m d) tickers None = None.
Proof. by induction tickers. Qed.

Lemma live_write_position g g' ticker a a' t :
  live_write g g' ticker a a' →
  position g' t = Some a' ∨ position g' t = position g t.
Proof.
  intros (assets & l & Hinv & Hl & Ha & ->). unfold position, asset_of; simpl.
  rewrite Hinv; simpl. destruct (assets !! t) as [l'|]; simpl; [|by right].
  rewrite lookup_insert. case_decide; [by left|by right].
Qed.

Lemma live_write_closed g g' ticker a a' inv :
  live_write g g' ticker a a' → inventory_closed g inv → inventory_closed g' inv.
Proof.
  intros (assets & l & Hinv & Hl & Ha & ->) (assets0 & Hinv0 & Hclosed).
  exists assets0. split; [done|]. intros t0 l0 Hl0; simpl.
  rewrite lookup_insert. case_decide; [by eexists|]. by apply (Hclosed t0).
Qed.

Lemma live_write_no_short g g' ticker a a' :
  live_write g g' ticker a a' → 0 ≤ Asset.qty a' → no_short g → no_short g'.
Proof.
  intros Hw Hqty [Hclosed Hpos]. split.
  - replace (inventory_curr g') with (inventory_curr g)
      by (by destruct Hw as (? & ? & _ & _ & _ & ->)).
    by apply (live_write_closed g g' ticker a a').
  - intros t a0 Hg'.
    destruct (live_write_position g g' ticker a a' t Hw) as [E|E]; rewrite E in Hg'.
    + by injection Hg' as <-.
    + by apply (Hpos t).
Qed.

Lemma live_write_read g g' ticker a a' :
  live_write g g' ticker a a' → position g ticker = Some a.
Proof.
  intros (assets & l & Hinv & Hl & Ha & _). unfold position, asset_of.
  rewrite Hinv; simpl. by rewrite Hl.
Qed.

Lemma calc_unrealized_profits_no_short y m d g g' :
  calc_unrealized_profits y m d g = Some g' → no_short g → no_short g'.
Proof.
  unfold calc_unrealized_profits. generalize (all_tickers g) as tickers.
  intros tickers. revert g.
  induction tickers as [|t tickers IH]; intros g; cbn [fold_left].
  - by intros [= <-].
  - destruct (mark_ticker y m d (Some g) t) as [g1|] eqn:Hmark;
      [|by rewrite mark_ticker_none].
    intros Hrun Hg. apply (IH g1 Hrun).
    destruct (mark_ticker_write _ _ _ _ _ _ Hmark) as (a & a' & Hw & Hq).
    apply (live_write_no_short g g1 t a a' Hw); [|done].
    rewrite Hq. destruct Hg as [_ Hpos]. apply (Hpos t).
    by apply (live_write_read g g1 t a a').
Qed.

Lemma take_snapshot_no_short y m d g g' :
  take_snapshot y m d (inventory_curr g) g = Some g' → no_short g → no_short g'.
Proof.
  unfold take_snapshot.
  destruct (deepcopy (inventory_curr g) g) as [[c g1]|] eqn:Hcopy; [|done]. simpl.
  intros [= <-] [(assets & Hinv & Hclosed) Hpos].
  destruct (deepcopy_frame _ _ _ _ Hcopy) as (assets' & h & -> & Hc & Hsub).
  assert (Hne : c ≠ inventory_curr g) by congruence.
  split.
  - exists assets; simpl. rewrite lookup_insert_ne by done. split; [done|].
    intros t l [a Ha]%Hclosed. exists a. by apply (lookup_weaken _ _ _ _ Ha Hsub).
  - intros t a. unfold position, asset_of; simpl.
    rewrite lookup_insert_ne by done. rewrite Hinv; simpl.
    destruct (assets !! t) as [l|] eqn:Hl; [|done]. simpl.
    destruct (Hclosed _ _ Hl) as [a0 Ha0].
    rewrite (lookup_weaken _ _ _ _ Ha0 Hsub). intros [= <-].
    apply (Hpos t). unfold position, asset_of. rewrite Hinv; simpl.
    by rewrite Hl.
Qed.

Lemma do_event_no_short g e g' :
  covered g e → do_event (Some g) e = Some g' → no_short g → no_short g'.
Proof.
  destruct e as [y m d ticker n order_type|y m d]; simpl.
  - intros [Hn Hsell] Hrun Hg.
    destruct (process_trade_write _ _ _ _ _ _ _ _ Hrun) as (a & a' & Hw & Hq).
    apply (live_write_no_short g g' ticker a a' Hw); [|done].
    pose proof (live_write_read _ _ _ _ _ Hw) as Hread.
    rewrite Hq. case_decide.
    + destruct Hg as [_ Hpos]. specialize (Hpos _ _ Hread). lia.
    + destruct (Hsell ltac:(done)) as (a0 & Ha0 & Hle).
      rewrite Hread in Ha0. injection Ha0 as <-. lia.
  - intros _. unfold daily_update.
    destruct (calc_unrealized_profits y m d g) as [g1|] eqn:Hcalc; [|done]. simpl.
    intros Hsnap Hg. apply (take_snapshot_no_short y m d g1 g'); [done|].
    by apply (calc_unrealized_profits_no_short y m d g).
Qed.

(** ** Construction of an inventory *)

Lemma comprehension_comprehended h0 tickers :
  comprehended h0 tickers (fold_left new_asset_for tickers (∅, h0)).
Proof.
  induction tickers as [|x tickers IH] using rev_ind.
  - split_and!; simpl; [done| | |].
    + intros t. rewrite lookup_empty. split; [by intros [? ?]|by intros ?%elem_of_nil].
    + intros t l Hl. by rewrite lookup_empty in Hl.
    + intros t t' l Hl. by rewrite lookup_empty in Hl.
  - rewrite fold_left_app; simpl.
    destruct (fold_left new_asset_for tickers (∅, h0)) as [assets h].
    destruct IH as (Hsub & Hkeys & Hnew & Hinj); simpl in *.
    pose proof (is_fresh (dom h)) as Hfresh. unfold new_asset_for; simpl.
    set (l' := fresh (dom h)) in *.
    assert (Hl'h : h !! l' = None) by by apply not_elem_of_dom.
    assert (Hl'0 : h0 !! l' = None).
    { destruct (h0 !! l') eqn:E; [|done].
      by rewrite (lookup_weaken _ _ _ _ E Hsub) in Hl'h. }
    assert (Hold : ∀ t l, assets !! t = Some l → l ≠ l').
    { intros t l Hl <-. destruct (Hnew _ _ Hl). congruence. }
    split_and!; simpl.
    + etrans; [exact Hsub|]. by apply insert_subseteq.
    + intros t. rewrite lookup_insert, elem_of_app, list_elem_of_singleton.
      case_decide; [subst; split; [by right|by eexists]|].
      rewrite Hkeys. split; [by left|]. by intros [?|?].
    + intros t l. rewrite lookup_insert. case_decide.
      * intros [= <-]. by rewrite lookup_insert_eq.
      * intros Hl. destruct (Hnew _ _ Hl). split; [done|].
        rewrite lookup_insert_ne; [done|]. intros E. by apply (Hold t l).
    + intros t t' l. rewrite !lookup_insert. repeat case_decide; subst.
      * done.
      * intros [= <-] Hl. by destruct (Hold _ _ Hl).
      * intros Hl [= <-]. by destruct (Hold _ _ Hl).
      * apply Hinj.
Qed.

(** C10: the constructor does not read its argument; whatever is passed,
    [Inventory(...)] creates the same inventory: a new object whose
    dictionary has exactly the tickers of [all_tickers] as keys, each bound
    to an [Asset] object of its own, created by the call and holding the
    initial values 0. *)
Theorem Inventory_init_ignores_argument {A B : Type} (t1 : A) (t2 : B) (g : Globals) :
  Inventory_init t1 g = Inventory_init t2 g ∧
  ∃ assets,
    inventory_objs g !! (Inventory_init t1 g).1 = None ∧
    inventory_objs (Inventory_init t1 g).2 !! (Inventory_init t1 g).1 = Some assets ∧
    (∀ ticker, is_Some (assets !! ticker) ↔ ticker ∈ all_tickers g) ∧
    (∀ ticker l, assets !! ticker = Some l →
       asset_objs g !! l = None ∧
       asset_objs (Inventory_init t1 g).2 !! l = Some Asset.init) ∧
    (∀ ticker ticker' l,
       assets !! ticker = Some l → assets !! ticker' = Some l → ticker = ticker').
Proof.
  split; [done|]. unfold Inventory_init.
  pose proof (comprehension_comprehended (asset_objs g) (all_tickers g)) as Hc.
  destruct (fold_left new_asset_for (all_tickers g) (∅, asset_objs g)) as [assets h].
  destruct Hc as (Hsub & Hkeys & Hnew & Hinj); simpl in *.
  exists assets. split_and!; try done.
  - apply not_elem_of_dom, is_fresh.
  - apply lookup_insert_eq.
Qed.

Lemma main_init_no_short tickers prices : no_short (main_init tickers prices).
Proof.
  unfold main_init, Inventory_init; simpl.
  pose proof (comprehension_comprehended ∅ tickers) as Hc.
  destruct (fold_left new_asset_for tickers (∅, ∅)) as [assets h].
  destruct Hc as (Hsub & Hkeys & Hnew & Hinj); simpl in *.
  split.
  - exists assets; simpl. split; [apply lookup_insert_eq|].
    intros t l Hl. destruct (Hnew _ _ Hl) as [_ ->]. by eexists.
  - intros t a. unfold position, asset_of; simpl. rewrite lookup_insert_eq; simpl.
    destruct (assets !! t) as [l|] eqn:Hl; [|done]. simpl.
    destruct (Hnew _ _ Hl) as [_ ->]. by intros [= <-].
Qed.

(** C3, as amended: from the zero-initialised inventory, after any replay of
    trades and daily updates in which every quantity is positive and no sell
    exceeds the quantity held when it is made, every position of the
    portfolio has a non-negative quantity. *)
Theorem covered_replay_no_short_position (tickers : list string)
    (prices : dict3 (gmap string R)) (g : Globals) (ticker : string) (a : Asset.t) :
  reachable_covered (main_init tickers prices) g →
  position g ticker = Some a →
  0 ≤ Asset.qty a.
Proof.
  intros Hreach. assert (Hg : no_short g).
  { induction Hreach as [|g e g' _ IH Hcov Hstep].
    - apply main_init_no_short.
    - by apply (do_event_no_short g e g'). }
  destruct Hg as [_ Hpos]. apply Hpos.
Qed.

(** A write to a position of the live inventory leaves the objects created
    by an earlier step alone. *)
Lemma live_write_keeps_created g g' g'' ticker a a' :
  inventory_closed g (inventory_curr g) →
  asset_objs g ⊆ asset_objs g' → inventory_objs g ⊆ inventory_objs g' →
  inventory_curr g' = inventory_curr g →
  live_write g' g'' ticker a a' →
  keeps_objects_created g g' g''.
Proof.
  intros (assets & Hinv & Hclosed) Hsub Hsubi Hcur (assets1 & l & Hinv1 & Hl & Ha & ->).
  rewrite Hcur, (lookup_weaken _ _ _ _ Hinv Hsubi) in Hinv1. injection Hinv1 as <-.
  split; simpl; [|done]. intros l1 Hnone _.
  rewrite lookup_insert_ne; [done|]. intros <-.
  destruct (Hclosed _ _ Hl) as [? ?]. congruence.
Qed.

Lemma take_snapshot_first_commit_wins_witness :
  ∃ g' c, take_snapshot 2020 1 3 1%positive scenario_held = Some g' ∧
    InventorySnapshot_get g' 2020 1 3 = Some c ∧
    (∀ t, asset_of g' c t = asset_of scenario_held 1%positive t) ∧
    ∀ g'', process_trade 2020 1 3 "AAPL" 5 SELL g' = Some g'' →
           asset_of g'' c "AAPL" = Some (Asset.mk 10 1000 1000 (-1000)).
Proof.
  assert (Hclosed : inventory_closed scenario_held 1%positive).
  { exists {[ "AAPL" := 1%positive ]}. split; [reflexivity|].
    intros t l [<- <-]%lookup_singleton_Some. by eexists. }
  destruct (take_snapshot_first_commit_wins scenario_held 2020 1 3 1%positive Hclosed)
    as (g' & Hrun & Hcur & Hsub & Hsubi & _ & Hnew).
  change (InventorySnapshot_get scenario_held 2020 1 3) with (@None loc) in Hnew.
  destruct Hnew as (c & Hget & _ & Hsame & Hkeep).
  exists g', c. split_and!; [done|done|done|].
  intros g'' Htrade.
  destruct (process_trade_write _ _ _ _ _ _ _ _ Htrade) as (a & a' & Hw & _).
  rewrite (Hkeep g''), Hsame; [reflexivity|].
  by apply (live_write_keeps_created scenario_held g' g'' "AAPL" a a').
Defined.

Lemma sell_branch_run g y m d ticker order_type n p assets l a :
  order_type ≠ BUY →
  get_daily_price g y m d ticker = Some p →
  inventory_objs g !! inventory_curr g = Some assets →
  assets !! ticker = Some l →
  asset_objs g !! l = Some a →
  let avg := (if decide (Asset.qty a = 0%Z) then 0
              else Asset.cost a / IZR (Asset.qty a))%R in
  process_trade y m d ticker n order_type g =
  Some (set_asset_objs
    (<[l := Asset.mk (Asset.qty a - n) (Asset.cost a - avg * IZR n)
              (Asset.value a) (Asset.cash a + p * IZR n)]> (asset_objs g))
    (set_trades
       (add_sell y m d
          (Sell.mk ticker p n ((p - avg) * IZR n) (avg * IZR n)) (trades g)) g)).
Proof.
  intros Hsell Hp Hinv Hl Ha avg. unfold process_trade.
  rewrite Hp, Hinv; simpl. rewrite Hl; simpl. rewrite Ha; simpl.
  rewrite decide_False by done. by rewrite avg_price_total.
Qed.

(** The over-sell that the engine lets through: one share is sold from the
    zero-initialised inventory and the position goes to -1. *)
Lemma oversell_goes_short :
  ∃ g a, replay [Trade 2020 1 3 "AAPL" 1 SELL] (main_init ["AAPL"] scenario_prices) = Some g ∧
    position g "AAPL" = Some a ∧ Asset.qty a = -1.
Proof.
  eexists _, _. split; [reflexivity|]. split; [reflexivity|]. reflexivity.
Qed.

Lemma covered_replay_no_short_position_witness :
  ∃ g a, replay [Trade 2020 1 2 "AAPL" 10 BUY; Trade 2020 1 3 "AAPL" 5 SELL]
           (main_init ["AAPL"] scenario_prices) = Some g ∧
    position g "AAPL" = Some a ∧ Asset.qty a = 5 ∧ 0 ≤ Asset.qty a.
Proof.
  set (g0 := main_init ["AAPL"] scenario_prices).
  destruct (process_trade 2020 1 2 "AAPL" 10 BUY g0) as [g1|] eqn:Hbuy; [|discriminate].
  assert (Hg1 : Some g1 = Some
    (mkGlobals ["AAPL"] scenario_prices
       {[ 1%positive := Asset.mk 10 (0 + 100 * 10) 0 (0 - 100 * 10) ]}
       {[ 1%positive := {[ "AAPL" := 1%positive ]} ]} 1%positive ∅
       (add_buy 2020 1 2 (Buy.mk "AAPL" 100 10) TradeHistory_init)))
    by (rewrite <- Hbuy; reflexivity).
  injection Hg1 as Hg1.
  destruct (process_trade 2020 1 3 "AAPL" 5 SELL g1) as [g2|] eqn:Hsell.
  2: { rewrite Hg1 in Hsell.
       by rewrite (sell_branch_run _ 2020 1 3 "AAPL" SELL 5 110
                     {[ "AAPL" := 1%positive ]} 1%positive
                     (Asset.mk 10 (0 + 100 * 10) 0 (0 - 100 * 10))) in Hsell. }
  assert (Hpos : ∃ a, position g2 "AAPL" = Some a ∧ Asset.qty a = 5).
  { rewrite Hg1 in Hsell.
    rewrite (sell_branch_run _ 2020 1 3 "AAPL" SELL 5 110
               {[ "AAPL" := 1%positive ]} 1%positive
               (Asset.mk 10 (0 + 100 * 10) 0 (0 - 100 * 10))) in Hsell by done.
    injection Hsell as <-. eexists. split; reflexivity. }
  destruct Hpos as (a & Ha & Hq). exists g2, a.
  split; [by unfold replay; simpl; fold g0; rewrite Hbuy; simpl; rewrite Hsell|].
  split; [done|]. split; [done|].
  apply (covered_replay_no_short_position ["AAPL"] scenario_prices g2 "AAPL" a); [|done].
  apply (reachable_step _ g1 (Trade 2020 1 3 "AAPL" 5 SELL)).
  - apply (reachable_step _ g0 (Trade 2020 1 2 "AAPL" 10 BUY)).
    + apply reachable_init.
    + split; [lia|]. by intros [].
    + exact Hbuy.
  - split; [lia|]. intros _. rewrite Hg1. eexists. split; [reflexivity|simpl; lia].
  - exact Hsell.
Defined.

(** ** The archive under replay *)

Section replay_after_commit.
Variables g g' : Globals.
Hypothesis live_closed : inventory_closed g (inventory_curr g).
Hypothesis objs_kept : inventory_objs g ⊆ inventory_objs g'.

Lemma live_write_after_commit gk gk1 ticker a a' :
  after_commit g g' gk → live_write gk gk1 ticker a a' → after_commit g g' gk1.
Proof using live_closed objs_kept.
  intros (Hcur & Hinvs & Hsnap & Hassets) (assets1 & l & Hinv1 & Hl & Ha & ->).
  destruct live_closed as (assets & Hinv & Hclosed).
  rewrite Hcur in Hinv1.
  rewrite (lookup_weaken _ _ _ _ (lookup_weaken _ _ _ _ Hinv objs_kept) Hinvs) in Hinv1.
  injection Hinv1 as <-.
  split_and!; simpl; [done|done|done|].
  intros l1 Hnone Hsome. rewrite lookup_insert_ne; [by apply Hassets|].
  intros <-. destruct (Hclosed _ _ Hl) as [? ?]. congruence.
Qed.

Lemma calc_unrealized_profits_after_commit y m d gk gk1 :
  after_commit g g' gk → calc_unrealized_profits y m d gk = Some gk1 →
  after_commit g g' gk1.
Proof using live_closed objs_kept.
  unfold calc_unrealized_profits. generalize (all_tickers gk) as tickers.
  intros tickers. revert gk.
  induction tickers as [|t tickers IH]; intros gk Hgk; cbn [fold_left].
  - by intros [= <-].
  - destruct (mark_ticker y m d (Some gk) t) as [gk0|] eqn:Hmark;
      [|by rewrite mark_ticker_none].
    apply IH. destruct (mark_ticker_write _ _ _ _ _ _ Hmark) as (a & a' & Hw & _).
    by apply (live_write_after_commit gk gk0 t a a').
Qed.

Lemma take_snapshot_after_commit y m d inv gk gk1 :
  after_commit g g' gk → take_snapshot y m d inv gk = Some gk1 →
  after_commit g g' gk1.
Proof.
  intros (Hcur & Hinvs & Hsnap & Hassets). unfold take_snapshot.
  destruct (deepcopy inv gk) as [[c gk0]|] eqn:Hcopy; [|done]. simpl.
  intros [= <-].
  destruct (deepcopy_frame _ _ _ _ Hcopy) as (assets' & h & -> & Hc & Hsub).
  split_and!; simpl.
  - done.
  - etrans; [exact Hinvs|]. by apply insert_subseteq.
  - intros y1 m1 d1 c1 Hc1. rewrite lookup3_commit. by rewrite (Hsnap _ _ _ _ Hc1).
  - intros l1 Hnone [a1 Ha1]. specialize (Hassets l1 Hnone ltac:(by eexists)).
    rewrite Ha1 in Hassets |- *. by apply (lookup_weaken _ _ _ _ Hassets Hsub).
Qed.

Lemma replay_after_commit events gk gk1 :
  after_commit g g' gk → replay events gk = Some gk1 → after_commit g g' gk1.
Proof using live_closed objs_kept.
  unfold replay. revert gk.
  induction events as [|e events IH]; intros gk Hgk; cbn [fold_left].
  - by intros [= <-].
  - destruct (do_event (Some gk) e) as [gk0|] eqn:Hstep.
    2: { clear. induction events; [done|]. by cbn [fold_left]. }
    apply IH. destruct e as [y m d ticker n order_type|y m d]; simpl in Hstep.
    + destruct (process_trade_write _ _ _ _ _ _ _ _ Hstep) as (a & a' & Hw & _).
      by apply (live_write_after_commit gk gk0 ticker a a').
    + unfold daily_update in Hstep.
      destruct (calc_unrealized_profits y m d gk) as [gk2|] eqn:Hcalc; [|done].
      simpl in Hstep.
      apply (take_snapshot_after_commit y m d (inventory_curr gk2) gk2); [|done].
      by apply (calc_unrealized_profits_after_commit y m d gk).
Qed.

End replay_after_commit.

(** Once the live inventory has been committed for a date, the snapshot of
    that date holds what the inventory held at the commit, whatever trades
    and daily updates are replayed afterwards. *)
Lemma committed_snapshot_survives_replay g g' g'' y m d events :
  inventory_closed g (inventory_curr g) →
  InventorySnapshot_get g y m d = None →
  take_snapshot y m d (inventory_curr g) g = Some g' →
  replay events g' = Some g'' →
  ∃ c, InventorySnapshot_get g'' y m d = Some c ∧
    ∀ t, asset_of g'' c t = position g t.
Proof.
  intros Hclosed Hfree Hsnap Hreplay.
  destruct (deepcopy_closed _ g Hclosed)
    as (c & assets' & h & Hcopy & Hc & Hsub & Hnew & Hsame).
  unfold take_snapshot in Hsnap. rewrite Hcopy in Hsnap. simpl in Hsnap.
  injection Hsnap as <-.
  set (g' := set_inventory_snapshot _ _) in *.
  assert (Hinvs : inventory_objs g ⊆ inventory_objs g')
    by by apply insert_subseteq.
  assert (Hstart : after_commit g g' g') by by split_and!.
  destruct (replay_after_commit g g' Hclosed Hinvs events g' g'' Hstart Hreplay)
    as (_ & Hkept & Harchive & Hassets).
  exists c. split.
  - apply Harchive. subst g'; simpl. rewrite lookup3_commit.
    unfold InventorySnapshot_get in Hfree. by rewrite Hfree, decide_True.
  - intros t. unfold position. rewrite <- Hsame. unfold asset_of.
    assert (Hc' : inventory_objs g' !! c = Some assets')
      by (subst g'; simpl; apply lookup_insert_eq).
    rewrite (lookup_weaken _ _ _ _ Hc' Hkept); simpl. rewrite lookup_insert_eq; simpl.
    destruct (assets' !! t) as [l'|] eqn:Ht; [|done]. simpl.
    destruct (Hnew _ _ Ht) as [Hnone Hsome]. by apply Hassets.
Qed.

(** ** Calendar lookup *)

Lemma max_fold_Some (l : list Z) k :
  foldr (λ key acc, Some (from_option (Z.max key) key acc)) None l = Some k ↔
  k ∈ l ∧ ∀ k', k' ∈ l → k' ≤ k.
Proof.
  revert k. induction l as [|x l IH]; intros k; simpl.
  - split; [done|]. by intros [?%elem_of_nil _].
  - destruct (foldr _ None l) as [r|] eqn:Hr; simpl.
    + destruct (IH r) as [[Hin Hmax] _]; [done|]. split.
      * intros [= <-]. split.
        -- destruct (Z.max_spec x r) as [[_ ->]|[_ ->]]; [by right|by left].
        -- intros k' [->|Hk']%elem_of_cons; [lia|]. specialize (Hmax _ Hk'). lia.
      * intros [[->|Hk]%elem_of_cons Hmax']; f_equal.
        -- pose proof (Hmax' r ltac:(by right)). lia.
        -- pose proof (Hmax _ Hk). pose proof (Hmax' x ltac:(by left)).
           pose proof (Hmax' r ltac:(by right)). lia.
    + assert (l = []) as ->.
      { destruct l as [|z l]; [done|]. simpl in Hr. discriminate. }
      split.
      * intros [= <-]. split; [by left|]. by intros k' ->%list_elem_of_singleton.
      * by intros [->%list_elem_of_singleton _].
Qed.

Lemma max_key_le_Some {V} (d : gmap Z V) bound k :
  max_key_le d bound = Some k ↔
  is_Some (d !! k) ∧ k ≤ bound ∧ ∀ k', is_Some (d !! k') → k' ≤ bound → k' ≤ k.
Proof.
  unfold max_key_le. rewrite max_fold_Some.
  assert (Hin : ∀ k0, k0 ∈ filter (λ key, key ≤ bound) (map_to_list d).*1 ↔
                      is_Some (d !! k0) ∧ k0 ≤ bound).
  { intros k0. rewrite list_elem_of_filter, list_elem_of_fmap. split.
    - intros (? & [k1 v] & -> & Hv%elem_of_map_to_list). split; [by exists v|done].
    - intros ([v Hv] & ?). split; [done|]. exists (k0, v). split; [done|].
      by apply elem_of_map_to_list. }
  rewrite Hin. split.
  - intros ((? & ?) & Hmax). split_and!; [done|done|].
    intros k' ??. apply Hmax, Hin. by split.
  - intros (? & ? & Hmax). split; [by split|].
    intros k' (? & ?)%Hin. by apply Hmax.
Qed.

Lemma max_key_le_present {V} (d : gmap Z V) k :
  is_Some (d !! k) → max_key_le d k = Some k.
Proof. intros Hk. apply max_key_le_Some. split_and!; [done|lia|done]. Qed.

(** The lookup returns its target when the target is indexed. *)
Lemma closest_date_of_indexed {V} (s : dict3 V) y m d :
  indexed s (y, m, d) → get_closest_available_date y m d s = Some (y, m, d).
Proof.
  unfold indexed, lookup3; simpl. intros [v Hv].
  destruct (s !! y) as [dy|] eqn:Hy; [|done]. simpl in Hv.
  destruct (dy !! m) as [dm|] eqn:Hm; [|done]. simpl in Hv.
  unfold get_closest_available_date.
  rewrite (max_key_le_present s y) by by rewrite Hy. simpl.
  rewrite Hy; simpl. rewrite (max_key_le_present dy m) by by rewrite Hm. simpl.
  rewrite Hy; simpl. rewrite Hm; simpl.
  by rewrite (max_key_le_present dm d) by by rewrite Hv.
Qed.

(** Whenever the lookup succeeds, the date it returns is indexed and is not
    later than the target. *)
Lemma closest_date_indexed_le {V} (s : dict3 V) y m d date :
  get_closest_available_date y m d s = Some date →
  indexed s date ∧ date_le date (y, m, d).
Proof.
  unfold get_closest_available_date.
  destruct (max_key_le s y) as [y1|] eqn:Hy1; [|done]. simpl.
  apply max_key_le_Some in Hy1 as ([dy1 Hdy1] & Hy1 & _).
  set (first := try_except _ _).
  assert (Hfirst : ∀ Y M, first = Some (Y, M) →
            ∃ dy, s !! Y = Some dy ∧ is_Some (dy !! M) ∧ (Y < y ∨ (Y ≤ y ∧ M ≤ m))).
  { subst first. intros Y M. rewrite Hdy1; simpl.
    destruct (max_key_le dy1 m) as [m1|] eqn:Hm1; simpl.
    - intros [= <- <-]. apply max_key_le_Some in Hm1 as (? & ? & _).
      exists dy1. split_and!; [done|done|]. right. lia.
    - destruct (max_key_le s y1) as [y2|] eqn:Hy2; [|done]. simpl.
      apply max_key_le_Some in Hy2 as (_ & Hy2 & _).
      destruct (s !! (y2 - 1)) as [dy2|] eqn:Hdy2; [|done]. simpl.
      destruct (max_key_le dy2 12) as [m2|] eqn:Hm2; [|done]. simpl.
      intros [= <- <-]. apply max_key_le_Some in Hm2 as (? & _).
      exists dy2. split_and!; [done|done|]. left. lia. }
  destruct first as [[Y M]|]; [|done]. simpl.
  destruct (Hfirst Y M eq_refl) as (dy & Hdy & [dm Hdm] & Hle). clear Hfirst.
  rewrite Hdy; simpl. rewrite Hdm; simpl.
  destruct (max_key_le dm d) as [d1|] eqn:Hd1; simpl.
  - intros [= <-]. apply max_key_le_Some in Hd1 as ([v Hv] & ? & _). split.
    + unfold indexed, lookup3; simpl. rewrite Hdy; simpl. rewrite Hdm; simpl.
      by exists v.
    + unfold date_le. lia.
  - destruct (max_key_le dy M) as [m2|] eqn:Hm2; [|done]. simpl.
    apply max_key_le_Some in Hm2 as (_ & Hm2 & _).
    destruct (dy !! (m2 - 1)) as [dm2|] eqn:Hdm2; [|done]. simpl.
    destruct (monthrange_days Y (m2 - 1)) as [last|]; [|done]. simpl.
    destruct (max_key_le dm2 last) as [d2|] eqn:Hd2; [|done]. simpl.
    intros [= <-]. apply max_key_le_Some in Hd2 as ([v Hv] & _). split.
    + unfold indexed, lookup3; simpl. rewrite Hdy; simpl. rewrite Hdm2; simpl.
      by exists v.
    + unfold date_le. lia.
Qed.

(** When the target is not indexed, a successful lookup returns a strictly
    earlier date. *)
Lemma get_closest_available_date_earlier {V} (s : dict3 V) y m d date :
  ¬ indexed s (y, m, d) →
  get_closest_available_date y m d s = Some date →
  date_lt date (y, m, d).
Proof.
  intros Hnot [Hin Hle]%closest_date_indexed_le.
  split; [done|]. by intros ->.
Qed.

(** An indexed target is its own closest date. *)
Lemma get_closest_available_date_exact {V} (s : dict3 V) y m d :
  indexed s (y, m, d) → get_closest_available_date y m d s = Some (y, m, d).
Proof. apply closest_date_of_indexed. Qed.

Lemma get_closest_available_date_exact_witness :
  get_closest_available_date 2020 1 20 january_index = Some (2020, 1, 20).
Proof. apply get_closest_available_date_exact. by exists (). Defined.

(** A date returned by the lookup is indexed and is not later than the
    target: the lookup never looks ahead and never makes a date up. *)
Lemma get_closest_available_date_sound {V} (s : dict3 V) y m d date :
  get_closest_available_date y m d s = Some date →
  indexed s date ∧ date_le date (y, m, d).
Proof. apply closest_date_indexed_le. Qed.

Lemma get_closest_available_date_sound_witness :
  indexed january_index (2020, 1, 2) ∧ date_le (2020, 1, 2) (2020, 2, 4).
Proof. by apply (get_closest_available_date_sound january_index 2020 2 4). Defined.

(** C2: the lookup does not always return the latest indexed date at or
    before its target.  With 2020-01-02 and 2020-01-20 indexed and nothing
    in February, the lookup for 2020-02-04 returns 2020-01-02, although
    2020-01-20 is indexed, is not later than the target and is later than
    the date returned. *)
Theorem closest_date_is_not_the_latest :
  get_closest_available_date 2020 2 4 january_index = Some (2020, 1, 2) ∧
  indexed january_index (2020, 1, 20) ∧
  date_le (2020, 1, 20) (2020, 2, 4) ∧
  date_lt (2020, 1, 2) (2020, 1, 20).
Proof.
  split_and!.
  - reflexivity.
  - by exists ().
  - unfold date_le. lia.
  - split; [unfold date_le; lia|done].
Qed.

(** ** Percentages *)

Lemma EPS_pos : (0 < EPS)%R.
Proof. unfold EPS. lra. Qed.

Lemma percent_total profit cost : percent profit cost = Some (percent_value profit cost).
Proof.
  unfold percent, percent_value. destruct (Rgt_dec cost EPS) as [Hgt|]; [|done].
  rewrite pydiv_nonzero; [done|]. pose proof EPS_pos. lra.
Qed.

Lemma percent_value_zero_cost profit : percent_value profit 0 = 0%R.
Proof.
  unfold percent_value. destruct (Rgt_dec 0 EPS) as [Hgt|]; [|done].
  pose proof EPS_pos. lra.
Qed.

(** [get_profits_cost] fails only where its lookups fail: once the last date
    has a closest snapshot that holds the tickers, the result is the tuple
    below. *)
Lemma get_profits_cost_run g dates tickers y m d inv up uc :
  last dates = Some (y, m, d) →
  get_closest_inventory g y m d = Some (Some inv) →
  Inventory_profits g inv tickers = Some up →
  Inventory_costs g inv tickers = Some uc →
  let rp := (sum_profits_costs (trades g) dates tickers).1 in
  let rc := (sum_profits_costs (trades g) dates tickers).2 in
  get_profits_cost g dates tickers =
  Some (mkProfitsCost rp rc (percent_value rp rc) up uc (percent_value up uc)
          (rp + up) (rc + uc) (percent_value (rp + up) (rc + uc))).
Proof.
  intros Hlast Hinv Hup Huc. unfold get_profits_cost.
  destruct (sum_profits_costs (trades g) dates tickers) as [rp rc]; simpl.
  rewrite !percent_total; simpl. rewrite Hlast; simpl. rewrite Hinv; simpl.
  rewrite Hup; simpl. rewrite Huc; simpl. by rewrite !percent_total.
Qed.

(** C6: in every tuple that [get_profits_cost] returns, each of the three
    percentages is the profit divided by the cost times 100 when the cost
    exceeds [EPS] and 0 otherwise; a cost of 0 gives the percentage 0.  The
    percentage itself never fails: the realized figures are the sums of the
    ledger, and [percent] returns a number for every profit and cost. *)
Theorem get_profits_cost_percentages (g : Globals) (dates : list (Z * Z * Z))
    (tickers : list string) (r : ProfitsCost) :
  get_profits_cost g dates tickers = Some r →
  dates ≠ [] ∧
  (realized_profits r, realized_cost r) = sum_profits_costs (trades g) dates tickers ∧
  realized_profits_percent r = percent_value (realized_profits r) (realized_cost r) ∧
  unrealized_profits_percent r = percent_value (unrealized_profits r) (unrealized_cost r) ∧
  total_profits_percent r = percent_value (total_profits r) (total_cost r) ∧
  (total_cost r = 0%R → total_profits_percent r = 0%R) ∧
  (∀ profit cost, percent profit cost = Some (percent_value profit cost)) ∧
  (∀ profit, percent profit 0 = Some 0%R).
Proof.
  unfold get_profits_cost.
  destruct (sum_profits_costs (trades g) dates tickers) as [rp rc]; simpl.
  rewrite percent_total; simpl.
  destruct (last dates) as [[[y m] d]|] eqn:Hlast; [|done]. simpl.
  destruct (get_closest_inventory g y m d) as [[inv|]|]; [|done|done]. simpl.
  destruct (Inventory_profits g inv tickers) as [up|]; [|done]. simpl.
  destruct (Inventory_costs g inv tickers) as [uc|]; [|done]. simpl.
  rewrite !percent_total; simpl. intros [= <-]; simpl.
  split_and!; try done.
  - by intros ->.
  - intros ->. apply percent_value_zero_cost.
  - apply percent_total.
  - intros profit. by rewrite percent_total, percent_value_zero_cost.
Qed.

Lemma get_profits_cost_percentages_witness :
  ∃ r, get_profits_cost scenario_committed [(2020, 1, 3)] ["AAPL"] = Some r ∧
    total_profits r = (0 + (0 + (1100 - 1000)))%R ∧
    total_cost r = (0 + (0 + 1000))%R ∧
    total_profits_percent r = percent_value (total_profits r) (total_cost r).
Proof.
  pose proof (get_profits_cost_run scenario_committed [(2020, 1, 3)] ["AAPL"]
                2020 1 3 2%positive (0 + (1100 - 1000)) (0 + 1000)
                eq_refl eq_refl eq_refl eq_refl) as Hrun.
  eexists. split; [exact Hrun|]. split; [reflexivity|]. split; [reflexivity|].
  by destruct (get_profits_cost_percentages _ _ _ _ Hrun) as (_ & _ & _ & _ & -> & _).
Defined.

(** ** Statistics *)

Lemma INR_length_nonzero {A} (x : list A) : x ≠ [] → INR (length x) ≠ 0%R.
Proof.
  intros Hx. apply not_0_INR. by destruct x.
Qed.

Lemma np_mean_nonempty x :
  x ≠ [] → np_mean x = Some (np_sum x / INR (length x))%R.
Proof. intros Hx. by apply pydiv_nonzero, INR_length_nonzero. Qed.

Lemma np_var_nonempty x :
  x ≠ [] →
  np_var x =
  Some (np_sum (map (λ v, (v - np_sum x / INR (length x)) *
                          (v - np_sum x / INR (length x)))%R x) / INR (length x))%R.
Proof.
  intros Hx. unfold np_var. rewrite np_mean_nonempty by done. simpl.
  by apply pydiv_nonzero, INR_length_nonzero.
Qed.

Lemma zip_with_diag {A B} (f : A → A → B) (x : list A) :
  zip_with f x x = map (λ a, f a a) x.
Proof. induction x; simpl; congruence. Qed.

(** The beta of a series against itself: the covariance is normalised by
    [N - 1] and the variance by [N], so the quotient is [N / (N - 1)]. *)
Lemma get_beta_self x v :
  (2 ≤ length x)%nat → np_var x = Some v → v ≠ 0%R →
  get_beta x x = Some (INR (length x) / (INR (length x) - 1))%R.
Proof.
  intros Hlen Hvar Hv.
  assert (Hx : x ≠ []) by (intros ->; simpl in Hlen; lia).
  assert (Hn : (2 <= INR (length x))%R) by (apply (le_INR 2); lia).
  rewrite np_var_nonempty in Hvar by done. injection Hvar as Hvar.
  unfold get_beta, np_cov_0_1. rewrite decide_True by done.
  rewrite np_mean_nonempty by done. simpl.
  rewrite pydiv_nonzero by lra. simpl.
  rewrite np_var_nonempty by done. simpl.
  rewrite zip_with_diag.
  set (S := np_sum _) in *. set (n := INR (length x)) in *.
  assert (HS : S ≠ 0%R).
  { intros HS. apply Hv. rewrite <- Hvar, HS. unfold Rdiv. lra. }
  rewrite pydiv_nonzero.
  - f_equal. field. split_and!; lra.
  - intros H0. apply Hv. by rewrite <- Hvar.
Qed.

Lemma get_beta_self_not_one x v :
  (2 ≤ length x)%nat → np_var x = Some v → v ≠ 0%R → get_beta x x ≠ Some 1%R.
Proof.
  intros Hlen Hvar Hv. rewrite (get_beta_self x v) by done.
  assert (Hn : (2 <= INR (length x))%R) by (apply (le_INR 2); lia).
  intros [= H1]. apply (Rmult_eq_compat_r (INR (length x) - 1)) in H1.
  unfold Rdiv in H1. rewrite Rmult_assoc, Rinv_l in H1; lra.
Qed.

(** C4: the beta of a benchmark series against itself is not 1.  For the
    series of returns 1, 2 the variance is 1/4, not zero, and [get_beta]
    returns 2 (the general value is [N / (N - 1)] for a series of length
    [N]), so that [get_alpha] uses 2 for its beta. *)
Theorem get_beta_self_is_not_one :
  np_var [1; 2]%R = Some (1 / 4)%R ∧
  get_beta [1; 2]%R [1; 2]%R = Some 2%R ∧
  ∀ total_return_of_market returns,
    get_alpha_from [1; 2]%R total_return_of_market returns =
    Some (returns - RISK_FREE_RATE - 2 * (total_return_of_market - RISK_FREE_RATE))%R.
Proof.
  assert (Hvar : np_var [1; 2]%R = Some (1 / 4)%R).
  { rewrite np_var_nonempty by done. f_equal. unfold np_sum; simpl. field. }
  assert (Hbeta : get_beta [1; 2]%R [1; 2]%R = Some 2%R).
  { rewrite (get_beta_self _ (1 / 4)); [|simpl; lia|done|lra].
    f_equal. simpl. field. }
  split_and!; [done|done|].
  intros. unfold get_alpha_from. by rewrite Hbeta.
Qed.

(** * Further properties of the engine *)

(** ** Trades on a position *)

Lemma position_live_write g g' ticker a a' :
  live_write g g' ticker a a' → position g' ticker = Some a'.
Proof.
  intros (assets & l & Hinv & Hl & Ha & ->). unfold position, asset_of; simpl.
  rewrite Hinv; simpl. rewrite Hl; simpl. apply lookup_insert_eq.
Qed.

Lemma position_lookup g ticker a :
  position g ticker = Some a →
  ∃ assets l, inventory_objs g !! inventory_curr g = Some assets ∧
    assets !! ticker = Some l ∧ asset_objs g !! l = Some a.
Proof.
  unfold position, asset_of.
  destruct (inventory_objs g !! inventory_curr g) as [assets|]; [|done]. simpl.
  destruct (assets !! ticker) as [l|] eqn:Hl; [|done]. simpl.
  intros Ha. by exists assets, l.
Qed.

Lemma buy_branch_run g y m d ticker n p assets l a :
  get_daily_price g y m d ticker = Some p →
  inventory_objs g !! inventory_curr g = Some assets →
  assets !! ticker = Some l →
  asset_objs g !! l = Some a →
  process_trade y m d ticker n BUY g =
  Some (set_asset_objs
    (<[l := Asset.mk (Asset.qty a + n) (Asset.cost a + p * IZR n)
              (Asset.value a) (Asset.cash a - p * IZR n)]> (asset_objs g))
    (set_trades (add_buy y m d (Buy.mk ticker p n) (trades g)) g)).
Proof.
  intros Hp Hinv Hl Ha. unfold process_trade.
  rewrite Hp, Hinv; simpl. rewrite Hl; simpl. by rewrite Ha.
Qed.

Lemma process_trade_priced g g' y m d ticker n order_type :
  process_trade y m d ticker n order_type g = Some g' →
  is_Some (get_daily_price g y m d ticker).
Proof.
  unfold process_trade. by destruct (get_daily_price g y m d ticker); [eexists|].
Qed.

(** A buy of [n] shares at the day's price [p] raises nothing once the price
    and the position exist; it hands [Buy(ticker, p, n)] to the ledger, adds
    [n] to the quantity and [p * n] to the cost basis, takes [p * n] from the
    cash and leaves the market value and the archive alone. *)
Theorem process_trade_buy (g : Globals) (y m d : Z) (ticker : string) (n : Z)
    (p : R) (a : Asset.t) :
  get_daily_price g y m d ticker = Some p →
  position g ticker = Some a →
  ∃ g', process_trade y m d ticker n BUY g = Some g' ∧
    trades g' = add_buy y m d (Buy.mk ticker p n) (trades g) ∧
    position g' ticker =
      Some (Asset.mk (Asset.qty a + n) (Asset.cost a + p * IZR n)
              (Asset.value a) (Asset.cash a - p * IZR n)) ∧
    inventory_snapshot g' = inventory_snapshot g.
Proof.
  intros Hp (assets & l & Hinv & Hl & Ha)%position_lookup.
  rewrite (buy_branch_run g y m d ticker n p assets l a) by done.
  eexists. split; [done|]. split_and!; [done| |done].
  unfold position. by apply (asset_of_write (set_trades _ g) l _ ticker _ assets).
Qed.

Lemma process_trade_buy_witness :
  ∃ g', process_trade 2020 1 3 "AAPL" 5 BUY scenario_held = Some g' ∧
    position g' "AAPL" = Some (Asset.mk (10 + 5) (1000 + 110 * 5) 1000 (-1000 - 110 * 5)).
Proof.
  destruct (process_trade_buy scenario_held 2020 1 3 "AAPL" 5 110
              (Asset.mk 10 1000 1000 (-1000)) eq_refl eq_refl)
    as (g' & Hrun & _ & Hpos & _).
  by exists g'.
Defined.

(** [process_trade] raises exactly when the day has no price for the ticker
    or the live inventory has no position for it; the order type and the
    quantity never make it fail. *)
Theorem process_trade_fails_iff (g : Globals) (y m d : Z) (ticker order_type : string)
    (n : Z) :
  process_trade y m d ticker n order_type g = None ↔
  get_daily_price g y m d ticker = None ∨ position g ticker = None.
Proof.
  unfold process_trade, position, asset_of.
  destruct (get_daily_price g y m d ticker) as [p|]; simpl; [|by split; [left|]].
  destruct (inventory_objs g !! inventory_curr g) as [assets|]; simpl;
    [|by split; [right|]].
  destruct (assets !! ticker) as [l|]; simpl; [|by split; [right|]].
  destruct (asset_objs g !! l) as [a|]; simpl; [|by split; [right|]].
  case_decide; [by split; [|intros [?|?]]|].
  rewrite avg_price_total; simpl. by split; [|intros [?|?]].
Qed.

(** ** Buys in a row *)

Lemma replay_none events : fold_left do_event events None = None.
Proof. by induction events. Qed.

Lemma buy_books_prices g g' ticker a buys :
  price_daily g' = price_daily g → buy_books g' ticker a buys = buy_books g ticker a buys.
Proof.
  intros Hp. unfold buy_books, get_daily_price. by rewrite Hp.
Qed.

(** Buys of one ticker, one after the other: the position ends with the
    books that the running updates [qty += qty], [cost += eod_price * qty]
    and [cash -= eod_price * qty] give, taken in the order of the buys with
    the prices of their days; its quantity has grown by the total quantity
    bought and its value is untouched. *)
Theorem buys_accumulate (g g' : Globals) (ticker : string)
    (buys : list (Z * Z * Z * Z)) (a : Asset.t) :
  position g ticker = Some a →
  replay (map (λ '(y, m, d, n), Trade y m d ticker n BUY) buys) g = Some g' →
  ∃ a', position g' ticker = Some a' ∧
    buy_books g ticker a buys = Some a' ∧
    Asset.qty a' = Asset.qty a + foldr Z.add 0 (map snd buys) ∧
    Asset.value a' = Asset.value a.
Proof.
  revert g a. unfold replay.
  induction buys as [|[[[y m] d] n] buys IH]; intros g a Ha; cbn [map fold_left].
  - intros [= <-]. exists a. split_and!; [done|done|simpl; lia|done].
  - destruct (do_event (Some g) (Trade y m d ticker n BUY)) as [g1|] eqn:Hstep;
      [|by rewrite replay_none].
    simpl in Hstep. destruct (process_trade_priced _ _ _ _ _ _ _ _ Hstep) as [p Hp].
    destruct (position_lookup _ _ _ Ha) as (assets & l & Hinv & Hl & Hal).
    rewrite (buy_branch_run g y m d ticker n p assets l a) in Hstep by done.
    injection Hstep as <-. set (g1 := set_asset_objs _ _).
    assert (Ha1 : position g1 ticker =
                  Some (Asset.mk (Asset.qty a + n) (Asset.cost a + p * IZR n)
                          (Asset.value a) (Asset.cash a - p * IZR n))).
    { unfold position. by apply (asset_of_write (set_trades _ g) l _ ticker _ assets). }
    intros Hrun. destruct (IH g1 _ Ha1 Hrun) as (a' & Ha' & Hbooks & Hq & Hv).
    rewrite (buy_books_prices g g1) in Hbooks by done.
    exists a'. simpl in *. split_and!; [done| |lia|done].
    unfold buy_books in *. cbn [fold_left]. simpl. by rewrite Hp.
Qed.

Lemma buys_accumulate_witness :
  ∃ g' a', replay [Trade 2020 1 2 "AAPL" 10 BUY; Trade 2020 1 3 "AAPL" 5 BUY]
             (main_init ["AAPL"] scenario_prices) = Some g' ∧
    position g' "AAPL" = Some a' ∧
    Asset.qty a' = 0 + (10 + (5 + 0)) ∧
    Asset.cost a' = (0 + 100 * 10 + 110 * 5)%R.
Proof.
  set (g := main_init ["AAPL"] scenario_prices).
  destruct (replay [Trade 2020 1 2 "AAPL" 10 BUY; Trade 2020 1 3 "AAPL" 5 BUY] g)
    as [g'|] eqn:Hrun; [|vm_compute in Hrun; discriminate].
  destruct (buys_accumulate g g' "AAPL" [(2020, 1, 2, 10); (2020, 1, 3, 5)]
              Asset.init eq_refl Hrun) as (a' & Ha' & Hbooks & Hq & _).
  exists g', a'. split; [done|]. split; [done|]. split; [exact Hq|].
  injection Hbooks as <-. reflexivity.
Defined.

(** ** Marking to market *)

Lemma mark_ticker_run y m d ticker g g' :
  mark_ticker y m d (Some g) ticker = Some g' →
  ∃ p a, get_daily_price g y m d ticker = Some p ∧
    live_write g g' ticker a
      (Asset.mk (Asset.qty a) (Asset.cost a) (p * IZR (Asset.qty a)) (Asset.cash a)).
Proof.
  unfold mark_ticker; simpl.
  destruct (get_daily_price g y m d ticker) as [p|]; [|done]. simpl.
  destruct (inventory_objs g !! inventory_curr g) as [assets|] eqn:Hinv; [|done]. simpl.
  destruct (assets !! ticker) as [l|] eqn:Hl; [|done]. simpl.
  destruct (asset_objs g !! l) as [a|] eqn:Ha; [|done]. simpl.
  intros [= <-]. exists p, a. split; [done|]. by exists assets, l.
Qed.

Lemma mark_ticker_fails_iff y m d ticker g :
  mark_ticker y m d (Some g) ticker = None ↔
  get_daily_price g y m d ticker = None ∨ position g ticker = None.
Proof.
  unfold mark_ticker, position, asset_of; simpl.
  destruct (get_daily_price g y m d ticker) as [p|]; simpl; [|by split; [left|]].
  destruct (inventory_objs g !! inventory_curr g) as [assets|]; simpl;
    [|by split; [right|]].
  destruct (assets !! ticker) as [l|]; simpl; [|by split; [right|]].
  destruct (asset_objs g !! l) as [a|]; simpl; [|by split; [right|]].
  by split; [|intros [?|?]].
Qed.

Lemma live_write_frame g g' ticker a a' :
  live_write g g' ticker a a' →
  price_daily g' = price_daily g ∧ inventory_objs g' = inventory_objs g ∧
  inventory_curr g' = inventory_curr g ∧ all_tickers g' = all_tickers g ∧
  inventory_snapshot g' = inventory_snapshot g.
Proof. by intros (assets & l & _ & _ & _ & ->). Qed.

Lemma live_write_other g g' ticker a a' t :
  live_write g g' ticker a a' → no_sharing g → t ≠ ticker →
  position g' t = position g t.
Proof.
  intros (assets & l & Hinv & Hl & Ha & ->) Hshare Ht. unfold position, asset_of; simpl.
  rewrite Hinv; simpl. destruct (assets !! t) as [l'|] eqn:Hl'; [|done]. simpl.
  rewrite lookup_insert_ne; [done|]. intros <-. by apply Ht, (Hshare assets t ticker l).
Qed.

Lemma live_write_is_Some g g' ticker a a' t :
  live_write g g' ticker a a' →
  position g' t = None ↔ position g t = None.
Proof.
  intros (assets & l & Hinv & Hl & Ha & ->). unfold position, asset_of; simpl.
  rewrite Hinv; simpl. destruct (assets !! t) as [l'|]; [|done]. simpl.
  rewrite lookup_insert. case_decide; [subst; by rewrite Ha|done].
Qed.

Lemma live_write_no_sharing g g' ticker a a' :
  live_write g g' ticker a a' → no_sharing g → no_sharing g'.
Proof.
  intros (Hp & Hi & Hc & _)%live_write_frame Hshare assets t t' l.
  rewrite Hi, Hc. apply Hshare.
Qed.

Lemma get_daily_price_frame g g' y m d t :
  price_daily g' = price_daily g → get_daily_price g' y m d t = get_daily_price g y m d t.
Proof. intros Hp. unfold get_daily_price. by rewrite Hp. Qed.

Lemma mark_loop_marks y m d tickers g g' :
  no_sharing g →
  fold_left (mark_ticker y m d) tickers (Some g) = Some g' →
  ∀ t, (t ∈ tickers →
          ∃ a p, position g t = Some a ∧ get_daily_price g y m d t = Some p ∧
            position g' t =
              Some (Asset.mk (Asset.qty a) (Asset.cost a) (p * IZR (Asset.qty a))
                      (Asset.cash a))) ∧
       (t ∉ tickers → position g' t = position g t).
Proof.
  revert g. induction tickers as [|t0 tickers IH]; intros g Hshare; cbn [fold_left].
  - intros [= <-] t. split; [by intros ?%elem_of_nil|done].
  - destruct (mark_ticker y m d (Some g) t0) as [g1|] eqn:Hmark;
      [|by rewrite mark_ticker_none].
    destruct (mark_ticker_run _ _ _ _ _ _ Hmark) as (p0 & a0 & Hp0 & Hw).
    pose proof (live_write_read _ _ _ _ _ Hw) as Ha0.
    pose proof (position_live_write _ _ _ _ _ Hw) as Ha0'.
    destruct (live_write_frame _ _ _ _ _ Hw) as (Hprices & _).
    intros Hrun t.
    destruct (IH g1 (live_write_no_sharing _ _ _ _ _ Hw Hshare) Hrun t) as [Hin Hout].
    split.
    + intros Ht. destruct (decide (t ∈ tickers)) as [Hrest|Hrest].
      * destruct (Hin Hrest) as (a1 & p & Ha1 & Hp & Ha').
        rewrite (get_daily_price_frame g g1) in Hp by done.
        destruct (decide (t = t0)) as [->|Hne].
        -- exists a0, p. rewrite Ha0' in Ha1. injection Ha1 as <-. by simpl in Ha'.
        -- exists a1, p. by rewrite <- (live_write_other _ _ _ _ _ t Hw).
      * apply elem_of_cons in Ht as [->|?]; [|done].
        exists a0, p0. by rewrite (Hout Hrest).
    + intros [Hne Hrest]%not_elem_of_cons.
      by rewrite (Hout Hrest), (live_write_other _ _ _ _ _ t Hw).
Qed.

(** With no [Asset] object shared between tickers, a successful
    [calc_unrealized_profits] sets the market value of every ticker of
    [all_tickers] to the day's price times the quantity held, and changes
    nothing else of any position. *)
Theorem calc_unrealized_profits_marks (g g' : Globals) (y m d : Z) (t : string) :
  no_sharing g →
  calc_unrealized_profits y m d g = Some g' →
  (t ∈ all_tickers g →
     ∃ a p, position g t = Some a ∧ get_daily_price g y m d t = Some p ∧
       position g' t =
         Some (Asset.mk (Asset.qty a) (Asset.cost a) (p * IZR (Asset.qty a))
                 (Asset.cash a))) ∧
  (t ∉ all_tickers g → position g' t = position g t).
Proof. intros Hshare Hrun. by apply (mark_loop_marks y m d (all_tickers g) g g'). Qed.

Lemma scenario_held_no_sharing : no_sharing scenario_held.
Proof.
  intros assets t t' l [= <-].
  by intros [<- _]%lookup_singleton_Some [<- _]%lookup_singleton_Some.
Qed.

Lemma calc_unrealized_profits_marks_witness :
  ∃ g', calc_unrealized_profits 2020 1 3 scenario_held = Some g' ∧
    position g' "AAPL" = Some (Asset.mk 10 1000 (110 * 10) (-1000)).
Proof.
  destruct (calc_unrealized_profits 2020 1 3 scenario_held) as [g'|] eqn:Hrun;
    [|discriminate].
  destruct (calc_unrealized_profits_marks scenario_held g' 2020 1 3 "AAPL"
              scenario_held_no_sharing Hrun) as [Hin _].
  destruct Hin as (a & p & Ha & Hp & Ha'); [by left|].
  injection Ha as <-. injection Hp as <-. by exists g'.
Defined.

(** ** The daily update *)

Lemma mark_loop_fails_iff y m d tickers g :
  fold_left (mark_ticker y m d) tickers (Some g) = None ↔
  ∃ t, t ∈ tickers ∧ (get_daily_price g y m d t = None ∨ position g t = None).
Proof.
  revert g. induction tickers as [|t0 tickers IH]; intros g; cbn [fold_left].
  - split; [done|]. by intros (t & ?%elem_of_nil & _).
  - destruct (mark_ticker y m d (Some g) t0) as [g1|] eqn:Hmark.
    + destruct (mark_ticker_run _ _ _ _ _ _ Hmark) as (p0 & a0 & Hp0 & Hw).
      destruct (live_write_frame _ _ _ _ _ Hw) as (Hprices & _).
      rewrite IH. split.
      * intros (t & Ht & Hbad). exists t. split; [by right|].
        by rewrite <- (get_daily_price_frame g g1), <- (live_write_is_Some g g1 _ _ _ t Hw).
      * intros (t & [->|Ht]%elem_of_cons & Hbad).
        -- rewrite Hp0, (live_write_read _ _ _ _ _ Hw) in Hbad. by destruct Hbad.
        -- exists t. split; [done|].
           by rewrite (get_daily_price_frame g g1), (live_write_is_Some g g1 _ _ _ t Hw).
    + rewrite mark_ticker_none. split; [|done]. intros _.
      exists t0. split; [by left|]. by apply mark_ticker_fails_iff.
Qed.

Lemma mark_loop_closed y m d tickers g g' inv :
  fold_left (mark_ticker y m d) tickers (Some g) = Some g' →
  inventory_closed g inv →
  inventory_closed g' inv ∧ inventory_curr g' = inventory_curr g ∧
  inventory_snapshot g' = inventory_snapshot g.
Proof.
  revert g. induction tickers as [|t0 tickers IH]; intros g; cbn [fold_left].
  - by intros [= <-].
  - destruct (mark_ticker y m d (Some g) t0) as [g1|] eqn:Hmark;
      [|by rewrite mark_ticker_none].
    destruct (mark_ticker_run _ _ _ _ _ _ Hmark) as (p0 & a0 & Hp0 & Hw).
    destruct (live_write_frame _ _ _ _ _ Hw) as (_ & _ & Hcur & _ & Hsnap).
    intros Hrun Hclosed.
    destruct (IH g1 Hrun (live_write_closed _ _ _ _ _ _ Hw Hclosed)) as (? & ? & ?).
    split_and!; [done|congruence|congruence].
Qed.

(** On a valid live inventory [daily_update] raises exactly when some ticker
    of [all_tickers] has no price on that day or no position: marking is
    the only step that can fail, the commit cannot. *)
Theorem daily_update_fails_iff (g : Globals) (y m d : Z) :
  inventory_closed g (inventory_curr g) →
  daily_update y m d g = None ↔
  ∃ t, t ∈ all_tickers g ∧ (get_daily_price g y m d t = None ∨ position g t = None).
Proof.
  intros Hclosed. rewrite <- mark_loop_fails_iff. unfold daily_update.
  fold (calc_unrealized_profits y m d g).
  destruct (calc_unrealized_profits y m d g) as [g1|] eqn:Hcalc; simpl; [|done].
  destruct (mark_loop_closed _ _ _ _ _ _ _ Hcalc Hclosed) as (Hclosed1 & Hcur & _).
  rewrite <- Hcur in Hclosed1.
  destruct (deepcopy_closed _ g1 Hclosed1) as (c & assets' & h & Hcopy & _).
  unfold take_snapshot. by rewrite Hcopy.
Qed.

Lemma daily_update_fails_iff_witness :
  daily_update 2020 1 4 scenario_held = None.
Proof.
  apply daily_update_fails_iff.
  - exists {[ "AAPL" := 1%positive ]}. split; [reflexivity|].
    intros t l [<- <-]%lookup_singleton_Some. by eexists.
  - exists "AAPL". split; [by left|]. by left.
Defined.

Lemma daily_update_committed (g g' : Globals) (y m d : Z) :
  inventory_closed g (inventory_curr g) →
  daily_update y m d g = Some g' →
  ∃ c, InventorySnapshot_get g' y m d = Some c ∧
    get_closest_inventory g' y m d = Some (Some c) ∧
    (InventorySnapshot_get g y m d = None → ∀ t, asset_of g' c t = position g' t).
Proof.
  intros Hclosed. unfold daily_update.
  destruct (calc_unrealized_profits y m d g) as [g1|] eqn:Hcalc; [|done]. simpl.
  destruct (mark_loop_closed _ _ _ _ _ _ _ Hcalc Hclosed) as (Hclosed1 & Hcur & Hsnap).
  rewrite <- Hcur in Hclosed1.
  destruct (deepcopy_closed _ g1 Hclosed1)
    as (c & assets' & h & Hcopy & Hc & Hsub & Hnew & Hsame).
  unfold take_snapshot. rewrite Hcopy; simpl. intros [= <-].
  assert (Hget : ∃ c0, lookup3 y m d
            (setdefault_then y ∅ (setdefault_then m ∅ (setdefault d c))
               (inventory_snapshot g1)) = Some c0 ∧
            (lookup3 y m d (inventory_snapshot g1) = None → c0 = c)).
  { rewrite lookup3_commit. destruct (lookup3 y m d (inventory_snapshot g1)) as [c0|].
    - by exists c0.
    - exists c. by rewrite decide_True. }
  destruct Hget as (c0 & Hc0 & Hfresh). exists c0.
  unfold InventorySnapshot_get, get_closest_inventory; simpl.
  split_and!; [done| |].
  - rewrite (closest_date_of_indexed _ y m d) by (unfold indexed; simpl; by rewrite Hc0).
    simpl. by rewrite Hc0.
  - rewrite <- Hsnap. intros ->%Hfresh t.
    trans (asset_of (with_copy c assets' h g1) c t); [done|]. rewrite Hsame.
    unfold position; simpl. destruct Hclosed1 as (assets & Hinv & Hcl).
    unfold asset_of; simpl. rewrite Hinv.
    rewrite lookup_insert_ne by congruence. rewrite Hinv; simpl.
    destruct (assets !! t) as [l|] eqn:Hl; [|done]. simpl.
    destruct (Hcl _ _ Hl) as [a Ha]. by rewrite Ha, (lookup_weaken _ _ _ _ Ha Hsub).
Qed.

(** After a successful [daily_update] the date has a snapshot, and the lookup
    of the closest snapshot for that date returns it.  When the date had no
    snapshot before, the snapshot holds for every ticker what the live
    inventory holds right after the update. *)
Theorem daily_update_commits (g g' : Globals) (y m d : Z) :
  inventory_closed g (inventory_curr g) →
  daily_update y m d g = Some g' →
  ∃ c, InventorySnapshot_get g' y m d = Some c ∧
    get_closest_inventory g' y m d = Some (Some c) ∧
    (InventorySnapshot_get g y m d = None → ∀ t, asset_of g' c t = position g' t).
Proof. apply daily_update_committed. Qed.

Lemma daily_update_commits_witness :
  ∃ g' c, daily_update 2020 1 3 scenario_held = Some g' ∧
    get_closest_inventory g' 2020 1 3 = Some (Some c) ∧
    asset_of g' c "AAPL" = position g' "AAPL".
Proof.
  assert (Hclosed : inventory_closed scenario_held (inventory_curr scenario_held)).
  { exists {[ "AAPL" := 1%positive ]}. split; [reflexivity|].
    intros t l [<- <-]%lookup_singleton_Some. by eexists. }
  destruct (daily_update 2020 1 3 scenario_held) as [g'|] eqn:Hrun;
    [|vm_compute in Hrun; discriminate].
  destruct (daily_update_commits scenario_held g' 2020 1 3 Hclosed Hrun)
    as (c & _ & Hclosest & Hsame).
  exists g', c. split_and!; [done|done|]. by apply Hsame.
Defined.

(** ** The archive *)

(** A commit concerns one date only: the date committed has a snapshot
    afterwards, the snapshot of every other date, the ledger, the prices and
    the live inventory are what they were. *)
Theorem take_snapshot_other_dates (g g' : Globals) (y m d : Z) (inv : loc) :
  take_snapshot y m d inv g = Some g' →
  is_Some (InventorySnapshot_get g' y m d) ∧
  (∀ y' m' d', (y', m', d') ≠ (y, m, d) →
     InventorySnapshot_get g' y' m' d' = InventorySnapshot_get g y' m' d') ∧
  trades g' = trades g ∧ price_daily g' = price_daily g ∧
  inventory_curr g' = inventory_curr g ∧
  ∀ t, is_Some (position g t) → position g' t = position g t.
Proof.
  unfold take_snapshot.
  destruct (deepcopy inv g) as [[c g1]|] eqn:Hcopy; [|done]. simpl. intros [= <-].
  destruct (deepcopy_frame _ _ _ _ Hcopy) as (assets' & h & -> & Hc & Hsub).
  unfold InventorySnapshot_get; simpl. split_and!; try done.
  - rewrite lookup3_commit. destruct (lookup3 y m d (inventory_snapshot g)); [done|].
    by rewrite decide_True.
  - intros y' m' d' Hne. rewrite lookup3_commit.
    destruct (lookup3 y' m' d' (inventory_snapshot g)); [done|].
    by rewrite decide_False by congruence.
  - intros t [a Ha]. rewrite Ha. unfold position in *.
    apply (asset_of_extends g); [done|by apply insert_subseteq|done].
Qed.

Lemma take_snapshot_other_dates_witness :
  ∃ g', take_snapshot 2020 1 3 1%positive scenario_held = Some g' ∧
    InventorySnapshot_get g' 2020 1 2 = None ∧
    position g' "AAPL" = position scenario_held "AAPL".
Proof.
  destruct (take_snapshot 2020 1 3 1%positive scenario_held) as [g'|] eqn:Hrun;
    [|vm_compute in Hrun; discriminate].
  destruct (take_snapshot_other_dates scenario_held g' 2020 1 3 1%positive Hrun)
    as (_ & Hother & _ & _ & _ & Hpos).
  exists g'. split_and!; [done| |].
  - by rewrite (Hother 2020 1 2).
  - apply Hpos. by eexists.
Defined.

Lemma get_closest_inventory_not_none g y m d :
  get_closest_inventory g y m d ≠ Some None.
Proof.
  unfold get_closest_inventory.
  destruct (get_closest_available_date y m d (inventory_snapshot g))
    as [[[y' m'] d']|] eqn:Hdate; [|done]. simpl.
  apply closest_date_indexed_le in Hdate as [[c Hc] _]. simpl in Hc. by rewrite Hc.
Qed.

(** [get_closest_inventory] never returns the value [None]: when the date
    lookup succeeds, the archive has a snapshot under the date found; and an
    empty archive makes it raise. *)
Theorem get_closest_inventory_found (g : Globals) (y m d : Z) :
  get_closest_inventory g y m d ≠ Some None ∧
  (inventory_snapshot g = ∅ → get_closest_inventory g y m d = None).
Proof.
  split; [apply get_closest_inventory_not_none|].
  unfold get_closest_inventory. by intros ->.
Qed.

(** ** More on the calendar lookup *)

Lemma max_key_le_None {V} (d : gmap Z V) bound :
  max_key_le d bound = None ↔ ∀ k, is_Some (d !! k) → bound < k.
Proof.
  split.
  - intros Hnone k Hk. destruct (decide (bound < k)) as [|Hle]; [done|].
    assert (Hex : ∃ l : list Z, l = filter (λ key, key ≤ bound) (map_to_list d).*1)
      by by eexists.
    destruct Hex as [l Hl]. unfold max_key_le in Hnone. rewrite <- Hl in Hnone.
    assert (Hin : k ∈ l).
    { rewrite Hl, list_elem_of_filter, list_elem_of_fmap. split; [lia|].
      destruct Hk as [v Hv]. exists (k, v). split; [done|]. by apply elem_of_map_to_list. }
    destruct l as [|x l]; [by apply elem_of_nil in Hin|]. simpl in Hnone. discriminate.
  - intros Hall. destruct (max_key_le d bound) as [k|] eqn:Hk; [|done].
    apply max_key_le_Some in Hk as (Hin & Hle & _). specialize (Hall k Hin). lia.
Qed.

(** When the month of the target is indexed and has a day at or before the
    target, the lookup stays in that month and returns the latest indexed
    date at or before the target. *)
Theorem closest_date_latest_within_month {V : Type} (s : dict3 V) (y m d d0 : Z) :
  indexed s (y, m, d0) → d0 ≤ d →
  ∃ d1, get_closest_available_date y m d s = Some (y, m, d1) ∧
    indexed s (y, m, d1) ∧ d0 ≤ d1 ≤ d ∧
    ∀ date, indexed s date → date_le date (y, m, d) → date_le date (y, m, d1).
Proof.
  unfold indexed at 1, lookup3; simpl. intros [v Hv] Hd0.
  destruct (s !! y) as [dy|] eqn:Hy; [|done]. simpl in Hv.
  destruct (dy !! m) as [dm|] eqn:Hm; [|done]. simpl in Hv.
  destruct (max_key_le dm d) as [d1|] eqn:Hd1.
  2: { pose proof (proj1 (max_key_le_None dm d) Hd1 d0 ltac:(by eexists)). lia. }
  exists d1. unfold get_closest_available_date.
  rewrite (max_key_le_present s y) by by rewrite Hy. simpl.
  rewrite Hy; simpl. rewrite (max_key_le_present dy m) by by rewrite Hm. simpl.
  rewrite Hy; simpl. rewrite Hm; simpl. rewrite Hd1; simpl.
  apply max_key_le_Some in Hd1 as ([v1 Hv1] & Hle & Hmax).
  split_and!; [done| | |lia|].
  - unfold indexed, lookup3; simpl. rewrite Hy; simpl. rewrite Hm; simpl. by eexists.
  - apply Hmax; [by eexists|done].
  - intros [[y' m'] d'] [v' Hv']. unfold lookup3 in Hv'; simpl in Hv'.
    unfold date_le. intros [?|[-> [?|[-> ?]]]]; [lia|lia|].
    rewrite Hy in Hv'; simpl in Hv'. rewrite Hm in Hv'; simpl in Hv'.
    pose proof (Hmax d' ltac:(by eexists) ltac:(done)). lia.
Qed.

Lemma closest_date_latest_within_month_witness :
  ∃ d1, get_closest_available_date 2020 1 25 january_index = Some (2020, 1, d1) ∧
    2 ≤ d1 ≤ 25 ∧ date_le (2020, 1, 20) (2020, 1, d1).
Proof.
  destruct (closest_date_latest_within_month january_index 2020 1 25 2)
    as (d1 & Hrun & _ & Hd1 & Hlatest); [by exists ()|lia|].
  exists d1. split_and!; [done|lia|lia|].
  apply Hlatest; [by exists ()|unfold date_le; lia].
Defined.

(** A target that falls before the first indexed day of its month is
    resolved in the month before, when that month is indexed in the same
    year: the lookup returns the last indexed day of that month, which is
    then the latest indexed date before the target. *)
Theorem closest_date_previous_month {V : Type} (s : dict3 V) (y m d last : Z)
    (dy : gmap Z (gmap Z V)) (dm dp : gmap Z V) :
  s !! y = Some dy → dy !! m = Some dm → dy !! (m - 1) = Some dp →
  (∀ k, is_Some (dm !! k) → d < k) →
  monthrange_days y (m - 1) = Some last →
  dp ≠ ∅ → (∀ k, is_Some (dp !! k) → k ≤ last) →
  ∃ d1, get_closest_available_date y m d s = Some (y, m - 1, d1) ∧
    indexed s (y, m - 1, d1) ∧
    ∀ date, indexed s date → date_le date (y, m, d) → date_le date (y, m - 1, d1).
Proof.
  intros Hy Hm Hp Hlate Hlast Hne Hvalid.
  destruct (max_key_le dp last) as [d1|] eqn:Hd1.
  2: { destruct (map_choose dp Hne) as (k & v & Hk).
       pose proof (proj1 (max_key_le_None dp last) Hd1 k ltac:(by eexists)).
       pose proof (Hvalid k ltac:(by eexists)). lia. }
  exists d1. unfold get_closest_available_date.
  rewrite (max_key_le_present s y) by by rewrite Hy. simpl.
  rewrite Hy; simpl. rewrite (max_key_le_present dy m) by by rewrite Hm. simpl.
  rewrite Hy; simpl. rewrite Hm; simpl.
  rewrite (proj2 (max_key_le_None dm d) Hlate); simpl.
  rewrite (max_key_le_present dy m) by by rewrite Hm. simpl.
  rewrite Hp; simpl. rewrite Hlast; simpl. rewrite Hd1; simpl.
  apply max_key_le_Some in Hd1 as ([v1 Hv1] & Hle & Hmax).
  split_and!; [done| |].
  - unfold indexed, lookup3; simpl. rewrite Hy; simpl. rewrite Hp; simpl. by eexists.
  - intros [[y' m'] d'] [v' Hv']. unfold lookup3 in Hv'; simpl in Hv'.
    unfold date_le. intros [?|[-> Hrest]]; [lia|].
    rewrite Hy in Hv'; simpl in Hv'.
    destruct (dy !! m') as [dm'|] eqn:Hm'; [|done]. simpl in Hv'.
    destruct (decide (m' = m)) as [->|Hmm].
    + rewrite Hm in Hm'. injection Hm' as <-.
      pose proof (Hlate d' ltac:(by eexists)). lia.
    + destruct (decide (m' = m - 1)) as [->|?]; [|lia].
      rewrite Hp in Hm'. injection Hm' as <-.
      pose proof (Hmax d' ltac:(by eexists) (Hvalid d' ltac:(by eexists))). lia.
Qed.

Lemma closest_date_previous_month_witness :
  ∃ d1, get_closest_available_date 2021 2 2 new_year_index = Some (2021, 2 - 1, d1) ∧
    indexed new_year_index (2021, 2 - 1, d1).
Proof.
  destruct (closest_date_previous_month new_year_index 2021 2 2 31
              {[ 1 := {[ 4 := (); 5 := () ]}; 2 := {[ 3 := () ]} ]}
              {[ 3 := () ]} {[ 4 := (); 5 := () ]})
    as (d1 & Hrun & Hin & _); try reflexivity.
  - intros k [v Hv]. apply lookup_singleton_Some in Hv as [<- _]. lia.
  - by intros Heq%(f_equal (λ dm : gmap Z unit, dm !! 4)).
  - intros k [v Hv]. destruct (decide (k = 4)) as [->|?]; [lia|].
    rewrite lookup_insert_ne in Hv by done.
    apply lookup_singleton_Some in Hv as [<- _]. lia.
  - by exists d1.
Defined.

(** There is no fallback across the new year at the level of the days: a
    target in an indexed January, before the first indexed day of that
    January, makes the lookup raise, whatever the index holds for the years
    before. *)
Theorem closest_date_january_gap {V : Type} (s : dict3 V) (y d : Z)
    (dy : gmap Z (gmap Z V)) (dm : gmap Z V) :
  s !! y = Some dy → dy !! 1 = Some dm →
  (∀ k, is_Some (dm !! k) → d < k) →
  get_closest_available_date y 1 d s = None.
Proof.
  intros Hy Hm Hlate. unfold get_closest_available_date.
  rewrite (max_key_le_present s y) by by rewrite Hy. simpl.
  rewrite Hy; simpl. rewrite (max_key_le_present dy 1) by by rewrite Hm. simpl.
  rewrite Hy; simpl. rewrite Hm; simpl.
  rewrite (proj2 (max_key_le_None dm d) Hlate); simpl.
  rewrite (max_key_le_present dy 1) by by rewrite Hm. simpl.
  by destruct (dy !! (1 - 1)).
Qed.

Lemma closest_date_january_gap_witness :
  get_closest_available_date 2021 1 1 new_year_index = None ∧
  indexed new_year_index (2020, 12, 31).
Proof.
  split; [|by exists ()].
  apply (closest_date_january_gap new_year_index 2021 1
           {[ 1 := {[ 4 := (); 5 := () ]}; 2 := {[ 3 := () ]} ]} {[ 4 := (); 5 := () ]});
    [reflexivity|reflexivity|].
  intros k [v Hv]. destruct (decide (k = 4)) as [->|?]; [lia|].
  rewrite lookup_insert_ne in Hv by done.
  apply lookup_singleton_Some in Hv as [<- _]. lia.
Defined.

(** *** The first date of a year *)

Lemma min_fold_Some (l : list Z) k :
  foldr (λ key acc, Some (from_option (Z.min key) key acc)) None l = Some k ↔
  k ∈ l ∧ ∀ k', k' ∈ l → k ≤ k'.
Proof.
  revert k. induction l as [|x l IH]; intros k; simpl.
  - split; [done|]. by intros [?%elem_of_nil _].
  - destruct (foldr _ None l) as [r|] eqn:Hr; simpl.
    + destruct (IH r) as [[Hin Hmin] _]; [done|]. split.
      * intros [= <-]. split.
        -- destruct (Z.min_spec x r) as [[_ ->]|[_ ->]]; [by left|by right].
        -- intros k' [->|Hk']%elem_of_cons; [lia|]. pose proof (Hmin _ Hk'). lia.
      * intros [[->|Hk]%elem_of_cons Hmin']; f_equal.
        -- pose proof (Hmin' r ltac:(by right)). lia.
        -- pose proof (Hmin _ Hk). pose proof (Hmin' x ltac:(by left)).
           pose proof (Hmin' r ltac:(by right)). lia.
    + assert (l = []) as ->.
      { destruct l as [|z l]; [done|]. simpl in Hr. discriminate. }
      split.
      * intros [= <-]. split; [by left|]. by intros k' ->%list_elem_of_singleton.
      * by intros [->%list_elem_of_singleton _].
Qed.

Lemma min_key_Some {V} (d : gmap Z V) k :
  min_key d = Some k ↔ is_Some (d !! k) ∧ ∀ k', is_Some (d !! k') → k ≤ k'.
Proof.
  unfold min_key. rewrite min_fold_Some.
  assert (Hin : ∀ k0, k0 ∈ (map_to_list d).*1 ↔ is_Some (d !! k0)).
  { intros k0. rewrite list_elem_of_fmap. split.
    - intros ([k1 v] & -> & Hv%elem_of_map_to_list). by exists v.
    - intros [v Hv]. exists (k0, v). split; [done|]. by apply elem_of_map_to_list. }
  rewrite Hin. split; intros [? Hmin]; (split; [done|]); intros k' ?; by apply Hmin, Hin.
Qed.

Lemma min_key_None {V} (d : gmap Z V) : min_key d = None ↔ d = ∅.
Proof.
  split.
  - intros Hnone. apply map_empty. intros k.
    destruct (d !! k) as [v|] eqn:Hk; [|done]. unfold min_key in Hnone.
    assert (Hin : k ∈ (map_to_list d).*1).
    { apply list_elem_of_fmap. exists (k, v). split; [done|]. by apply elem_of_map_to_list. }
    destruct ((map_to_list d).*1) as [|x l]; [by apply elem_of_nil in Hin|].
    simpl in Hnone. discriminate.
  - intros ->. unfold min_key. by rewrite map_to_list_empty.
Qed.

Lemma get_first_month_day_None {V} (dy : gmap Z (gmap Z V)) :
  get_first_month_day dy = None ↔
  dy = ∅ ∨ ∃ month, min_key dy = Some month ∧ dy !! month = Some ∅.
Proof.
  unfold get_first_month_day. split.
  - destruct (min_key dy) as [month|] eqn:Hmonth; simpl.
    2: { left. by apply min_key_None. }
    pose proof Hmonth as ([dm Hdm] & _)%min_key_Some. rewrite Hdm; simpl.
    destruct (min_key dm) as [day|] eqn:Hday; simpl; [done|].
    intros _. right. exists month. split; [done|].
    apply min_key_None in Hday. by rewrite Hday in Hdm.
  - intros [->|(month & -> & Hdm)]; simpl.
    + by rewrite (proj2 (min_key_None (∅ : gmap Z (gmap Z V))) eq_refl).
    + rewrite Hdm; simpl.
      by rewrite (proj2 (min_key_None (∅ : gmap Z V)) eq_refl).
Qed.

(** [get_first_month_day] returns the earliest month of the year together
    with the earliest day of that month, which is the earliest date of the
    year; it raises exactly when the year has no month or its earliest month
    has no day. *)
Theorem get_first_month_day_earliest {V : Type} (dy : gmap Z (gmap Z V)) :
  match get_first_month_day dy with
  | Some (month, day) =>
      ∃ dm, dy !! month = Some dm ∧ is_Some (dm !! day) ∧
        ∀ month' dm' day', dy !! month' = Some dm' → is_Some (dm' !! day') →
          month < month' ∨ (month = month' ∧ day ≤ day')
  | None => dy = ∅ ∨ ∃ month, min_key dy = Some month ∧ dy !! month = Some ∅
  end ∧
  (get_first_month_day dy = None ↔
   dy = ∅ ∨ ∃ month, min_key dy = Some month ∧ dy !! month = Some ∅).
Proof.
  split; [|apply get_first_month_day_None].
  unfold get_first_month_day.
  destruct (min_key dy) as [month|] eqn:Hmonth; simpl.
  2: { left. by apply min_key_None. }
  pose proof Hmonth as Hmonth'.
  apply min_key_Some in Hmonth as ([dm Hdm] & Hmin). rewrite Hdm; simpl.
  destruct (min_key dm) as [day|] eqn:Hday; simpl.
  - apply min_key_Some in Hday as (Hin & Hmind). exists dm. split_and!; [done|done|].
    intros month' dm' day' Hdm' Hday'.
    pose proof (Hmin month' ltac:(by eexists)).
    destruct (decide (month = month')) as [<-|?]; [|lia].
    right. split; [done|]. rewrite Hdm in Hdm'. injection Hdm' as <-. by apply Hmind.
  - right. exists month. split; [done|]. apply min_key_None in Hday. by rewrite Hday in Hdm.
Qed.

(** ** Portfolio sums *)

Lemma fold_Rplus_shift (xs : list R) (acc : R) :
  fold_left Rplus xs acc = (acc + fold_left Rplus xs 0)%R.
Proof.
  revert acc. induction xs as [|x xs IH]; intros acc; simpl; [lra|].
  rewrite IH, (IH (0 + x)%R). lra.
Qed.

Lemma Inventory_sum_cons field g self t tickers :
  Inventory_sum field g self (t :: tickers) =
  a ← asset_of g self t; s ← Inventory_sum field g self tickers; Some (field a + s)%R.
Proof.
  unfold Inventory_sum. simpl. destruct (asset_of g self t) as [a|]; [|done]. simpl.
  destruct (mapM _ tickers) as [xs|]; [|done]. simpl.
  rewrite fold_Rplus_shift. f_equal. lra.
Qed.

Lemma Inventory_sum_None field g self tickers :
  Inventory_sum field g self tickers = None ↔
  ∃ t, t ∈ tickers ∧ asset_of g self t = None.
Proof.
  induction tickers as [|t tickers IH].
  - split; [done|]. by intros (t & ?%elem_of_nil & _).
  - rewrite Inventory_sum_cons. destruct (asset_of g self t) as [a|] eqn:Ha; simpl.
    + destruct (Inventory_sum field g self tickers) as [s|]; simpl.
      * split; [done|]. intros (t' & [->|Ht']%elem_of_cons & Hnone); [congruence|].
        destruct IH as [_ IH]. discriminate IH. by exists t'.
      * split; [|done]. intros _. destruct (proj1 IH eq_refl) as (t' & ? & ?).
        exists t'. split; [by right|done].
    + split; [|done]. intros _. exists t. split; [by left|done].
Qed.

(** ** Ledger *)

(** Insert and lookup: after [add_sell] the lookup of a sell gives what it
    gave before, except under the key of the event when that key was free,
    where it gives the event; the buys are not touched.  The same holds for
    [add_buy] with the roles exchanged. *)
Theorem ledger_insert_lookup (h : TradeHistory) (y m d : Z) (buy : Buy.t) (sell : Sell.t)
    (y' m' d' : Z) (t' : string) :
  get_sell (add_sell y m d sell h) y' m' d' t' =
    match get_sell h y' m' d' t' with
    | Some s0 => Some s0
    | None => if decide ((y, m, d, Sell.ticker sell) = (y', m', d', t'))
              then Some sell else None
    end ∧
  get_buy (add_sell y m d sell h) y' m' d' t' = get_buy h y' m' d' t' ∧
  get_buy (add_buy y m d buy h) y' m' d' t' =
    match get_buy h y' m' d' t' with
    | Some b0 => Some b0
    | None => if decide ((y, m, d, Buy.ticker buy) = (y', m', d', t'))
              then Some buy else None
    end ∧
  get_sell (add_buy y m d buy h) y' m' d' t' = get_sell h y' m' d' t'.
Proof.
  split_and!; [apply get_sell_add_sell|done|apply get_buy_add_buy|done].
Qed.

(** ** Profit and cost of a period *)

(** [get_profits_cost] raises in three cases only: the list of dates is
    empty, the closest-date lookup for the last date raises, or the snapshot
    found has no position for one of the tickers. *)
Theorem get_profits_cost_fails_iff (g : Globals) (dates : list (Z * Z * Z))
    (tickers : list string) :
  get_profits_cost g dates tickers = None ↔
  dates = [] ∨
  ∃ y m d, last dates = Some (y, m, d) ∧
    (get_closest_inventory g y m d = None ∨
     ∃ inv t, get_closest_inventory g y m d = Some (Some inv) ∧
       t ∈ tickers ∧ asset_of g inv t = None).
Proof.
  unfold get_profits_cost.
  destruct (sum_profits_costs (trades g) dates tickers) as [rp rc]; simpl.
  rewrite percent_total; simpl.
  destruct (last dates) as [[[y m] d]|] eqn:Hlast; simpl.
  2: { apply last_None in Hlast. split; [by left|done]. }
  assert (Hne : dates ≠ []) by (intros ->; done).
  destruct (get_closest_inventory g y m d) as [[inv|]|] eqn:Hinv; simpl.
  - unfold Inventory_profits, Inventory_costs.
    destruct (Inventory_sum Asset.profit g inv tickers) as [up|] eqn:Hup; simpl.
    + destruct (Inventory_sum Asset.cost g inv tickers) as [uc|] eqn:Huc; simpl.
      * rewrite !percent_total; simpl. split; [done|].
        intros [?|(y' & m' & d' & [= <- <- <-] & [Hnone|(inv' & t & Hinv' & Ht & Hnone)])];
          [done|congruence|].
        rewrite Hinv in Hinv'. injection Hinv' as <-.
        assert (Inventory_sum Asset.cost g inv tickers = None) as Hn
          by (apply Inventory_sum_None; by exists t).
        congruence.
      * apply Inventory_sum_None in Huc as (t & Ht & Hnone).
        assert (Inventory_sum Asset.profit g inv tickers = None) as Hn
          by (apply Inventory_sum_None; by exists t).
        congruence.
    + apply Inventory_sum_None in Hup as (t & Ht & Hnone). split; [|done]. intros _.
      right. exists y, m, d. split; [done|]. right. by exists inv, t.
  - exfalso. by apply (get_closest_inventory_not_none g y m d).
  - split; [|done]. intros _. right. exists y, m, d. split; [done|by left].
Qed.

Lemma Inventory_sum_same_positions field g self self' tickers :
  (∀ t, asset_of g self t = asset_of g self' t) →
  Inventory_sum field g self tickers = Inventory_sum field g self' tickers.
Proof.
  intros Hsame. induction tickers as [|t tickers IH]; [done|].
  by rewrite !Inventory_sum_cons, Hsame, IH.
Qed.

(** Right after the daily update of a date that had no snapshot, the
    unrealized profit and cost that [get_profits_cost] reports for a period
    ending on that date are those of the live portfolio. *)
Theorem get_profits_cost_after_update (g g' : Globals) (y m d : Z)
    (dates : list (Z * Z * Z)) (tickers : list string) (r : ProfitsCost) :
  inventory_closed g (inventory_curr g) →
  InventorySnapshot_get g y m d = None →
  daily_update y m d g = Some g' →
  last dates = Some (y, m, d) →
  get_profits_cost g' dates tickers = Some r →
  Inventory_profits g' (inventory_curr g') tickers = Some (unrealized_profits r) ∧
  Inventory_costs g' (inventory_curr g') tickers = Some (unrealized_cost r).
Proof.
  intros Hclosed Hfree Hupdate Hlast.
  destruct (daily_update_committed g g' y m d Hclosed Hupdate) as (c & _ & Hinv & Hsame).
  specialize (Hsame Hfree). unfold get_profits_cost.
  destruct (sum_profits_costs (trades g') dates tickers) as [rp rc]; simpl.
  rewrite percent_total; simpl. rewrite Hlast; simpl. rewrite Hinv; simpl.
  unfold Inventory_profits, Inventory_costs.
  rewrite !(Inventory_sum_same_positions _ g' c (inventory_curr g') tickers Hsame).
  destruct (Inventory_sum Asset.profit g' _ tickers) as [up|]; [|done]. simpl.
  destruct (Inventory_sum Asset.cost g' _ tickers) as [uc|]; [|done]. simpl.
  rewrite !percent_total; simpl. by intros [= <-].
Qed.

Lemma get_profits_cost_after_update_witness :
  daily_update 2020 1 3 scenario_held = Some scenario_updated ∧
  ∃ r, get_profits_cost scenario_updated [(2020, 1, 3)] ["AAPL"] = Some r ∧
    Inventory_profits scenario_updated 1%positive ["AAPL"] = Some (unrealized_profits r) ∧
    Inventory_costs scenario_updated 1%positive ["AAPL"] = Some (unrealized_cost r).
Proof.
  assert (Hupdate : daily_update 2020 1 3 scenario_held = Some scenario_updated)
    by (vm_compute; reflexivity).
  split; [done|].
  pose proof (get_profits_cost_run scenario_updated [(2020, 1, 3)] ["AAPL"]
                2020 1 3 2%positive (0 + (110 * 10 - 1000)) (0 + 1000)
                eq_refl eq_refl eq_refl eq_refl) as Hrun.
  eexists. split; [exact Hrun|].
  apply (get_profits_cost_after_update scenario_held scenario_updated 2020 1 3
           [(2020, 1, 3)] ["AAPL"] _); [|done|exact Hupdate|done|exact Hrun].
  exists {[ "AAPL" := 1%positive ]}. split; [reflexivity|].
  intros t l [<- <-]%lookup_singleton_Some. by eexists.
Defined.

Lemma committed_snapshot_survives_replay_witness :
  ∃ g' g'' c, take_snapshot 2020 1 2 1%positive scenario_updated = Some g' ∧
    replay [Trade 2020 1 3 "AAPL" 5 BUY; Update 2020 1 3] g' = Some g'' ∧
    InventorySnapshot_get g'' 2020 1 2 = Some c ∧
    asset_of g'' c "AAPL" = Some (Asset.mk 10 1000 (110 * 10) (-1000)).
Proof.
  destruct (take_snapshot 2020 1 2 1%positive scenario_updated) as [g'|] eqn:Hsnap;
    [|vm_compute in Hsnap; discriminate].
  destruct (replay [Trade 2020 1 3 "AAPL" 5 BUY; Update 2020 1 3] g') as [g''|] eqn:Hrun.
  2: { vm_compute in Hsnap. injection Hsnap as <-. vm_compute in Hrun. discriminate. }
  assert (Hclosed : inventory_closed scenario_updated (inventory_curr scenario_updated)).
  { exists {[ "AAPL" := 1%positive ]}. split; [reflexivity|].
    intros t l [<- <-]%lookup_singleton_Some. by eexists. }
  destruct (committed_snapshot_survives_replay scenario_updated g' g'' 2020 1 2 _
              Hclosed eq_refl Hsnap Hrun) as (c & Hget & Hsame).
  exists g', g'', c. split_and!; [done|done|done|].
  rewrite Hsame. reflexivity.
Defined.

(** ** Calendar days *)

Lemma monthrange_days_Some y m last :
  monthrange_days y m = Some last ↔
  1 ≤ m ≤ 12 ∧
  last = (if bool_decide (m = 2) then (if isleap y then 29 else 28)
          else if bool_decide (m ∈ [4; 6; 9; 11]) then 30 else 31).
Proof.
  unfold monthrange_days. case_bool_decide.
  - split; [by intros [= <-]|by intros [_ ->]].
  - split; [done|]. by intros [? _].
Qed.

Lemma monthrange_days_bounds y m last :
  monthrange_days y m = Some last → 1 ≤ m ≤ 12 ∧ 28 ≤ last ≤ 31.
Proof.
  intros [Hm ->]%monthrange_days_Some. split; [done|].
  repeat case_bool_decide; destruct (isleap y); lia.
Qed.

Lemma monthrange_days_is_Some y m : 1 ≤ m ≤ 12 → is_Some (monthrange_days y m).
Proof. intros Hm. unfold monthrange_days. rewrite bool_decide_eq_true_2 by done. by eexists. Qed.

Lemma datetime_Some y m d date :
  datetime y m d = Some date ↔ date = (y, m, d) ∧ valid_date (y, m, d).
Proof.
  unfold datetime, valid_date. destruct (monthrange_days y m) as [last|]; simpl.
  - case_bool_decide as H.
    + split; [intros [= <-]|by intros [-> _]]. split; [done|].
      split; [lia|]. exists last. split; [done|lia].
    + split; [done|]. intros [_ [? (last' & [= <-] & ?)]]. destruct H. lia.
  - split; [done|]. by intros [_ [_ (? & ? & _)]].
Qed.

Lemma next_day_Some s n :
  valid_date s → next_day s = Some n →
  valid_date n ∧ date_rank s < date_rank n ∧
  ∀ e, valid_date e → date_le s e → ¬ date_le n e → e = s.
Proof.
  destruct s as [[y m] d]. intros [Hy (last & Hlast & Hd)]. unfold next_day.
  rewrite Hlast; simpl.
  destruct (monthrange_days_bounds _ _ _ Hlast) as [Hm Hl].
  assert (Hbetween : ∀ ye me de n',
            valid_date (ye, me, de) → date_le (y, m, d) (ye, me, de) →
            ¬ date_le n' (ye, me, de) →
            (n' = (y, m, d + 1) ∨
             (d = last ∧ (n' = (y, m + 1, 1) ∨ (m = 12 ∧ n' = (y + 1, 1, 1))))) →
            (ye, me, de) = (y, m, d)).
  { intros ye me de n' [Hye (laste & Hlaste & Hde)] Hle Hnle Hn'.
    destruct (monthrange_days_bounds _ _ _ Hlaste) as [Hme Hle'].
    destruct (decide ((ye, me) = (y, m))) as [[= -> ->]|Hne].
    - rewrite Hlast in Hlaste. injection Hlaste as <-.
      unfold date_le in *. f_equal.
      destruct Hn' as [Hn'|[Hdl [Hn'|[Hm' Hn']]]]; subst n'; lia.
    - exfalso.
      assert (ye ≠ y ∨ me ≠ m)
        by (destruct (decide (ye = y)); [right; congruence|by left]).
      unfold date_le in *.
      destruct Hn' as [Hn'|[Hdl [Hn'|[Hm' Hn']]]]; subst n'; lia. }
  case_bool_decide as Hlt; [|case_bool_decide as Hm12; [|case_bool_decide as Hy9; [|done]]];
    intros [= <-].
  - split_and!.
    + split; [done|]. exists last. split; [done|lia].
    + simpl. lia.
    + intros [[ye me] de] He Hle Hnle. apply (Hbetween ye me de _ He Hle Hnle). by left.
  - destruct (monthrange_days_is_Some y (m + 1)) as [last' Hlast']; [lia|].
    destruct (monthrange_days_bounds _ _ _ Hlast') as [_ ?]. split_and!.
    + split; [done|]. exists last'. split; [done|lia].
    + simpl. lia.
    + intros [[ye me] de] He Hle Hnle. apply (Hbetween ye me de _ He Hle Hnle).
      right. split; [lia|by left].
  - destruct (monthrange_days_is_Some (y + 1) 1) as [last' Hlast']; [lia|].
    destruct (monthrange_days_bounds _ _ _ Hlast') as [_ ?]. split_and!.
    + split; [lia|]. exists last'. split; [done|lia].
    + simpl. lia.
    + intros [[ye me] de] He Hle Hnle. apply (Hbetween ye me de _ He Hle Hnle).
      right. split; [lia|]. right. split; [lia|done].
Qed.

Lemma next_day_None s :
  valid_date s → next_day s = None ↔ s = (9999, 12, 31).
Proof.
  destruct s as [[y m] d]. intros [Hy (last & Hlast & Hd)]. unfold next_day.
  rewrite Hlast; simpl.
  destruct (monthrange_days_bounds _ _ _ Hlast) as [Hm Hl].
  apply monthrange_days_Some in Hlast as [_ Hlast].
  assert (Hdec : m = 12 → last = 31) by (by intros ->; subst last).
  clear Hlast.
  case_bool_decide as Hlt; [|case_bool_decide as Hm12; [|case_bool_decide as Hy9]].
  - split; [done|]. intros [= -> -> ->]. lia.
  - split; [done|]. intros [= -> -> ->]. lia.
  - split; [done|]. intros [= -> -> ->]. lia.
  - split; [intros _|done].
    assert (m = 12) as -> by lia. assert (y = 9999) as -> by lia.
    f_equal. lia.
Qed.

Lemma date_le_rank a b :
  valid_date a → valid_date b → date_le a b ↔ date_rank a ≤ date_rank b.
Proof.
  destruct a as [[y1 m1] d1], b as [[y2 m2] d2].
  intros [_ (l1 & [? ?]%monthrange_days_bounds & ?)]
         [_ (l2 & [? ?]%monthrange_days_bounds & ?)].
  unfold date_le, date_rank. lia.
Qed.

Lemma date_le_refl a : date_le a a.
Proof. destruct a as [[y m] d]. unfold date_le. lia. Qed.

Lemma date_le_trans a b c : date_le a b → date_le b c → date_le a c.
Proof.
  destruct a as [[y1 m1] d1], b as [[y2 m2] d2], c as [[y3 m3] d3].
  unfold date_le. lia.
Qed.

Lemma listed_nil s e : ¬ date_le s e → listed s e [].
Proof.
  intros Hgt. split_and!; [| |done|done].
  - intros date. split; [by intros ?%elem_of_nil|].
    intros (_ & H1 & H2). destruct Hgt. by eapply date_le_trans.
  - intros i a b Ha. by rewrite lookup_nil in Ha.
Qed.

Lemma all_dates_loop_listed fuel s e :
  valid_date s → valid_date e → e ≠ (9999, 12, 31) →
  date_rank e - date_rank s + 1 ≤ Z.of_nat fuel →
  ∃ l, all_dates_loop fuel s e = Some l ∧ listed s e l.
Proof.
  revert s. induction fuel as [|fuel IH]; intros s Hs He Hmax Hfuel.
  - simpl. assert (Hgt : ¬ date_le s e) by (rewrite date_le_rank by done; lia).
    rewrite bool_decide_eq_false_2 by done. exists []. split; [done|].
    by apply listed_nil.
  - cbn [all_dates_loop]. case_bool_decide as Hle.
    2: { exists []. split; [done|]. by apply listed_nil. }
    destruct (next_day s) as [n|] eqn:Hn.
    2: { apply next_day_None in Hn as ->; [|done]. exfalso. apply Hmax.
         destruct e as [[ye me] de].
         destruct He as [? (le & [? ?]%monthrange_days_bounds & ?)].
         unfold date_le in Hle. f_equal; [f_equal|]; lia. }
    simpl. destruct (next_day_Some s n Hs Hn) as (Hnv & Hrank & Hbetween).
    destruct (IH n Hnv He Hmax ltac:(lia)) as (l & -> & Hmem & Hchain & Hends & Hnil).
    simpl. exists (s :: l). split; [done|]. split_and!.
    + intros date. rewrite elem_of_cons, Hmem. split.
      * intros [->|(Hv & Hnd & Hde)]; [by split_and!; [|apply date_le_refl|]|].
        split_and!; [done| |done].
        apply date_le_rank; [done..|].
        apply date_le_rank in Hnd; [lia|done..].
      * intros (Hv & Hsd & Hde).
        destruct (decide (date_le n date)) as [Hnd|Hnd]; [by right|].
        left. by apply Hbetween.
    + intros [|i] a b; simpl; [|apply Hchain].
      intros [= <-] Hb. destruct (decide (date_le n e)) as [Hne|Hne].
      * destruct (Hends Hne) as [Hhead _]. destruct l as [|x l]; [done|].
        simpl in *. congruence.
      * by rewrite (Hnil Hne) in Hb.
    + intros _. split; [done|].
      destruct (decide (date_le n e)) as [Hne|Hne].
      * destruct (Hends Hne) as [_ Hlast]. destruct l as [|x l]; [done|].
        by rewrite last_cons, Hlast.
      * rewrite (Hnil Hne). simpl. f_equal. symmetry. by apply Hbetween.
    + done.
Qed.

Lemma all_dates_loop_overflow fuel s :
  valid_date s → all_dates_loop fuel s (9999, 12, 31) = None.
Proof.
  revert s. induction fuel as [|fuel IH]; intros s Hs.
  - simpl. rewrite bool_decide_eq_true_2; [done|].
    destruct s as [[y m] d]. destruct Hs as [? (l & [? ?]%monthrange_days_bounds & ?)].
    unfold date_le. lia.
  - cbn [all_dates_loop]. rewrite bool_decide_eq_true_2.
    + destruct (next_day s) as [n|] eqn:Hn; [|done]. simpl.
      destruct (next_day_Some s n Hs Hn) as (Hnv & _). by rewrite IH.
    + destruct s as [[y m] d]. destruct Hs as [? (l & [? ?]%monthrange_days_bounds & ?)].
      unfold date_le. lia.
Qed.

Lemma get_all_dates_listed y1 m1 d1 y2 m2 d2 :
  match get_all_dates y1 m1 d1 y2 m2 d2 with
  | Some l =>
      valid_date (y1, m1, d1) ∧ valid_date (y2, m2, d2) ∧
      listed (y1, m1, d1) (y2, m2, d2) l
  | None =>
      ¬ valid_date (y1, m1, d1) ∨ ¬ valid_date (y2, m2, d2) ∨
      ((y2, m2, d2) = (9999, 12, 31) ∧ date_le (y1, m1, d1) (y2, m2, d2))
  end.
Proof.
  unfold get_all_dates.
  destruct (datetime y1 m1 d1) as [s|] eqn:Hs; cbn [mbind option_bind].
  2: { left. intros Hv. assert (datetime y1 m1 d1 = Some (y1, m1, d1)) as Hn
         by by apply datetime_Some. congruence. }
  apply datetime_Some in Hs as [-> Hs].
  destruct (datetime y2 m2 d2) as [e|] eqn:He; cbn [mbind option_bind].
  2: { right; left. intros Hv. assert (datetime y2 m2 d2 = Some (y2, m2, d2)) as Hn
         by by apply datetime_Some. congruence. }
  apply datetime_Some in He as [-> He].
  destruct (decide ((y2, m2, d2) = (9999, 12, 31))) as [Hmax|Hmax].
  - injection Hmax as -> -> ->. rewrite all_dates_loop_overflow by done.
    right; right. split; [done|].
    destruct Hs as [? (l & [? ?]%monthrange_days_bounds & ?)].
    unfold date_le. lia.
  - destruct (all_dates_loop_listed
                (Z.to_nat (date_rank (y2, m2, d2) - date_rank (y1, m1, d1) + 1))
                (y1, m1, d1) (y2, m2, d2) Hs He Hmax ltac:(lia)) as (l & -> & Hl).
    done.
Qed.

(** [get_all_dates] returns, for two valid dates, every calendar day from
    the start to the end, both included, one day after the other; when the
    start is after the end it returns the empty list (it does not raise).
    It raises exactly when one of the two dates is not a date of the
    calendar of the years 1 to 9999, or when the end is 9999-12-31 and the
    start is not after it. *)
Theorem get_all_dates_every_day (y1 m1 d1 y2 m2 d2 : Z) :
  match get_all_dates y1 m1 d1 y2 m2 d2 with
  | Some l =>
      valid_date (y1, m1, d1) ∧ valid_date (y2, m2, d2) ∧
      listed (y1, m1, d1) (y2, m2, d2) l
  | None =>
      ¬ valid_date (y1, m1, d1) ∨ ¬ valid_date (y2, m2, d2) ∨
      ((y2, m2, d2) = (9999, 12, 31) ∧ date_le (y1, m1, d1) (y2, m2, d2))
  end ∧
  (get_all_dates y1 m1 d1 y2 m2 d2 = None ↔
   ¬ valid_date (y1, m1, d1) ∨ ¬ valid_date (y2, m2, d2) ∨
   ((y2, m2, d2) = (9999, 12, 31) ∧ date_le (y1, m1, d1) (y2, m2, d2))).
Proof.
  split; [apply get_all_dates_listed|].
  pose proof (get_all_dates_listed y1 m1 d1 y2 m2 d2) as Hrun. split.
  - intros Hnone. by rewrite Hnone in Hrun.
  - intros Hcause. destruct (get_all_dates y1 m1 d1 y2 m2 d2) as [l|] eqn:Hl; [|done].
    exfalso. destruct Hrun as (Hs & He & _).
    destruct Hcause as [?|[?|[[= -> -> ->] _]]]; [done|done|].
    unfold get_all_dates in Hl.
    rewrite (proj2 (datetime_Some y1 m1 d1 _) (conj eq_refl Hs)) in Hl.
    rewrite (proj2 (datetime_Some 9999 12 31 _) (conj eq_refl He)) in Hl.
    cbn [mbind option_bind] in Hl.
    by rewrite all_dates_loop_overflow in Hl.
Qed.

Lemma gmap_nonempty_key {V} (d : gmap Z V) : d ≠ ∅ → ∃ k, is_Some (d !! k).
Proof.
  intros Hne. destruct (min_key d) as [k|] eqn:Hk.
  - exists k. by apply min_key_Some in Hk as [? _].
  - by apply min_key_None in Hk.
Qed.

Lemma get_all_dates_year_listed {V} (s : dict3 V) year dy :
  s !! year = Some dy → dy ≠ ∅ → year < 9999 →
  (∀ month dm, dy !! month = Some dm →
     dm ≠ ∅ ∧ ∀ day, is_Some (dm !! day) → valid_date (year, month, day)) →
  ∃ l first final,
    get_all_dates_year year s = Some l ∧
    indexed s first ∧ indexed s final ∧
    (∀ month day, indexed s (year, month, day) →
       date_le first (year, month, day) ∧ date_le (year, month, day) final) ∧
    listed first final l ∧ head l = Some first ∧ last l = Some final.
Proof.
  intros Hy Hne H9 Hwf.
  (* the first indexed date of the year *)
  destruct (min_key dy) as [ms|] eqn:Hms; [|by apply min_key_None in Hms].
  pose proof Hms as [[dms Hdms] Hms_min]%min_key_Some.
  destruct (Hwf ms dms Hdms) as [Hdms_ne Hdms_valid].
  destruct (min_key dms) as [ds|] eqn:Hds; [|by apply min_key_None in Hds].
  pose proof Hds as [Hds_in Hds_min]%min_key_Some.
  assert (Hfirst : get_first_month_day dy = Some (ms, ds)).
  { unfold get_first_month_day. rewrite Hms; simpl. rewrite Hdms; simpl. by rewrite Hds. }
  pose proof (Hdms_valid ds Hds_in) as Hfirst_valid.
  (* the last indexed date of the year *)
  assert (Hmonths : ∀ month, is_Some (dy !! month) → 1 ≤ month ≤ 12).
  { intros month [dm Hdm]. destruct (Hwf month dm Hdm) as [Hdm_ne Hdm_valid].
    destruct (gmap_nonempty_key dm Hdm_ne) as [day Hday].
    destruct (Hdm_valid day Hday) as [_ (last & [? _]%monthrange_days_bounds & _)]. done. }
  assert (Hdays : ∀ month dm day, dy !! month = Some dm → is_Some (dm !! day) → 1 ≤ day ≤ 31).
  { intros month dm day Hdm Hday. destruct (Hwf month dm Hdm) as [_ Hdm_valid].
    destruct (Hdm_valid day Hday) as [_ (last & [_ ?]%monthrange_days_bounds & ?)]. lia. }
  destruct (max_key_le dy 12) as [me|] eqn:Hme.
  2: { exfalso. pose proof (proj1 (max_key_le_None dy 12) Hme ms (ex_intro _ dms Hdms)).
       pose proof (Hmonths ms (ex_intro _ dms Hdms)). lia. }
  pose proof Hme as ([dme Hdme] & _ & Hme_max)%max_key_le_Some.
  destruct (Hwf me dme Hdme) as [Hdme_ne Hdme_valid].
  destruct (max_key_le dme 31) as [de|] eqn:Hde.
  2: { exfalso. destruct (gmap_nonempty_key dme Hdme_ne) as [day Hday].
       pose proof (proj1 (max_key_le_None dme 31) Hde day Hday).
       pose proof (Hdays me dme day Hdme Hday). lia. }
  pose proof Hde as (Hde_in & _ & Hde_max)%max_key_le_Some.
  assert (Hfinal : get_closest_available_date year 12 31 s = Some (year, me, de)).
  { unfold get_closest_available_date.
    rewrite max_key_le_present by (by rewrite Hy). simpl.
    rewrite Hy; simpl. rewrite Hme; simpl. rewrite Hy; simpl.
    rewrite Hdme; simpl. by rewrite Hde. }
  pose proof (Hdme_valid de Hde_in) as Hfinal_valid.
  (* every day from the one to the other *)
  assert (Hbounds : ∀ month day, indexed s (year, month, day) →
            date_le (year, ms, ds) (year, month, day) ∧
            date_le (year, month, day) (year, me, de)).
  { intros month day. unfold indexed, lookup3; simpl. rewrite Hy; simpl.
    destruct (dy !! month) as [dm|] eqn:Hdm; simpl; [|by intros [??]].
    intros Hday. unfold date_le.
    pose proof (Hms_min month (ex_intro _ dm Hdm)).
    pose proof (Hme_max month (ex_intro _ dm Hdm)
                  (proj2 (Hmonths month (ex_intro _ dm Hdm)))).
    split; right; (split; [done|]).
    - destruct (decide (ms = month)) as [->|]; [right|left; lia].
      split; [done|]. rewrite Hdms in Hdm. injection Hdm as ->. by apply Hds_min.
    - destruct (decide (month = me)) as [->|]; [right|left; lia].
      split; [done|]. rewrite Hdme in Hdm. injection Hdm as ->.
      apply Hde_max; [done|]. by apply (Hdays me dm day). }
  assert (Hfirst_in : indexed s (year, ms, ds)).
  { unfold indexed, lookup3; simpl. rewrite Hy; simpl. by rewrite Hdms. }
  assert (Hfinal_in : indexed s (year, me, de)).
  { unfold indexed, lookup3; simpl. rewrite Hy; simpl. by rewrite Hdme. }
  pose proof (get_all_dates_listed year ms ds year me de) as Hrun.
  destruct (get_all_dates year ms ds year me de) as [l|] eqn:Hl.
  - destruct Hrun as (_ & _ & Hlisted).
    exists l, (year, ms, ds), (year, me, de).
    assert (Hle : date_le (year, ms, ds) (year, me, de)) by by apply Hbounds.
    split_and!; try done.
    + unfold get_all_dates_year. rewrite Hy; simpl. rewrite Hfirst; simpl.
      by rewrite Hfinal.
    + by apply Hlisted.
    + by apply Hlisted.
  - exfalso. destruct Hrun as [?|[?|[[= ? _ _] _]]]; [done|done|lia].
Qed.

(** [get_all_dates_year]: when the index holds the year, and every month of
    the year in it is a non-empty month of calendar dates, the result runs
    from the first indexed date of the year to the last one and holds
    every calendar day between the two, indexed or not. *)
Theorem get_all_dates_year_span {V : Type} (s : dict3 V) (year : Z)
    (dy : gmap Z (gmap Z V)) :
  s !! year = Some dy → dy ≠ ∅ → year < 9999 →
  (∀ month dm, dy !! month = Some dm →
     dm ≠ ∅ ∧ ∀ day, is_Some (dm !! day) → valid_date (year, month, day)) →
  ∃ l first final,
    get_all_dates_year year s = Some l ∧
    indexed s first ∧ indexed s final ∧
    (∀ month day, indexed s (year, month, day) →
       date_le first (year, month, day) ∧ date_le (year, month, day) final) ∧
    listed first final l ∧ head l = Some first ∧ last l = Some final.
Proof. apply get_all_dates_year_listed. Qed.

Lemma get_all_dates_year_span_witness :
  ∃ l first final,
    get_all_dates_year 2021 new_year_index = Some l ∧
    indexed new_year_index first ∧ indexed new_year_index final ∧
    (∀ month day, indexed new_year_index (2021, month, day) →
       date_le first (2021, month, day) ∧ date_le (2021, month, day) final) ∧
    listed first final l ∧ head l = Some first ∧ last l = Some final.
Proof.
  apply (get_all_dates_year_span new_year_index 2021
           {[ 1 := {[ 4 := (); 5 := () ]}; 2 := {[ 3 := () ]} ]}).
  - reflexivity.
  - intros H. apply (f_equal (λ d : gmap Z (gmap Z unit), d !! 1)) in H.
    vm_compute in H. discriminate.
  - lia.
  - intros month dm [[<- <-]|[_ [<- <-]%lookup_singleton_Some]]%lookup_insert_Some.
    + split.
      * intros H. apply (f_equal (λ d : gmap Z unit, d !! 4)) in H.
        vm_compute in H. discriminate.
      * intros day [[] [[<- _]|[_ [<- _]%lookup_singleton_Some]]%lookup_insert_Some].
        -- split; [lia|]. exists 31. split; [reflexivity|lia].
        -- split; [lia|]. exists 31. split; [reflexivity|lia].
    + split.
      * intros H. apply (f_equal (λ d : gmap Z unit, d !! 3)) in H.
        vm_compute in H. discriminate.
      * intros day [[] [<- _]%lookup_singleton_Some].
        split; [lia|]. exists 28. split; [reflexivity|lia].
Defined.

(** ** Rounded sums *)




(** ** The Sharpe ratio of constant returns *)

(** C5: on the constant returns 0.05, 0.05, 0.05 the mean is rounded to
    0.05000000000000001, so the standard deviation that numpy returns is
    2^-57 and not 0: the test [volatility == 0] fails, nothing is printed and
    the quotient 4323455642275677.5 is returned.  On 0.5, 0.5, 0.5, where
    the mean is exact, the standard deviation is 0 and 1 is used in its
    place. *)
Theorem get_sharpe_ratio_misses_constant_returns :
  F64.np_mean [0.05; 0.05; 0.05]%float = 0.05000000000000001%float ∧
  F64.np_std [0.05; 0.05; 0.05]%float = 6.938893903907228e-18%float ∧
  F64.get_sharpe_ratio [0.05; 0.05; 0.05]%float = (4323455642275677.5%float, []) ∧
  F64.get_sharpe_ratio [0.5; 0.5; 0.5]%float = (0.48%float, [sharpe_diagnostic]).
Proof. split_and!; vm_compute; reflexivity. Qed.
